(** * A shallow embedding of the Lazada crawler (lazada-crawler.ts)

    The development follows the source top-down: JavaScript strings and
    the few String.prototype methods the crawler calls, the parsed page
    ([cheerio]) as the crawler queries it, the values produced by
    [JSON.parse], the field extractors, the CAPTCHA wait loop, the
    per-product crawl and the two session loops. *)

From Stdlib Require Import ZArith QArith DecimalString.
From Equations Require Import Equations.
From stdpp Require Import gmap list strings.

Open Scope Z_scope.

(** ** JavaScript strings

    A JavaScript string is a sequence of UTF-16 code units; [length],
    [includes], [startsWith], [split] and the regular expressions of the
    crawler all work on code units. *)

Module JS.

Definition char16 := N.
Abbreviation jsstring := (list N).

(** [str "abc"] is the JavaScript literal ['abc'] (ASCII only). *)
Definition str (s : string) : jsstring :=
  List.map Ascii.N_of_ascii (String.list_ascii_of_string s).

(** U+20AB, the dong sign. *)
Definition dong : char16 := 8363%N.

(** [s.startsWith(p)] *)
Fixpoint startsWith (p s : jsstring) : bool :=
  match p, s with
  | [], _ => true
  | _ :: _, [] => false
  | a :: p', b :: s' => N.eqb a b && startsWith p' s'
  end.

(** [s.includes(p)] *)
Fixpoint includes (p s : jsstring) : bool :=
  startsWith p s ||
  match s with
  | [] => false
  | _ :: s' => includes p s'
  end.

(** [s.split(c)[0]] for a one-character separator: the part of [s] before
    the first [c], all of [s] when [c] does not occur. *)
Fixpoint split_head (c : char16) (s : jsstring) : jsstring :=
  match s with
  | [] => []
  | a :: s' => if N.eqb a c then [] else a :: split_head c s'
  end.

(** Truthiness of a string: non-empty. *)
Definition nonempty (s : jsstring) : bool :=
  match s with [] => false | _ :: _ => true end.

(** White space in the sense of [\s] and of [trim]: WhiteSpace and
    LineTerminator code points. *)
Definition is_space (c : char16) : bool :=
  ((9 <=? c) && (c <=? 13) || (c =? 32) || (c =? 160) || (c =? 5760)
   || (8192 <=? c) && (c <=? 8202) || (c =? 8232) || (c =? 8233)
   || (c =? 8239) || (c =? 8287) || (c =? 12288) || (c =? 65279))%N.

(** [\d] *)
Definition is_digit (c : char16) : bool := ((48 <=? c) && (c <=? 57))%N.

Fixpoint trimStart (s : jsstring) : jsstring :=
  match s with
  | [] => []
  | c :: s' => if is_space c then trimStart s' else s
  end.

Definition trimEnd (s : jsstring) : jsstring := reverse (trimStart (reverse s)).

(** [s.trim()] *)
Definition trim (s : jsstring) : jsstring := trimEnd (trimStart s).

(** [arr.slice(0, e)] for an integer [e]: a negative [e] counts from the
    end of the array. *)
Definition slice0 {A} (l : list A) (e : Z) : list A :=
  let len := Z.of_nat (length l) in
  let final := if e <? 0 then Z.max (len + e) 0 else Z.min e len in
  take (Z.to_nat final) l.

(** [s.replace(/\n/g, '')] *)
Definition remove_newlines (s : jsstring) : jsstring :=
  List.filter (fun c => negb (c =? 10)%N) s.

(** [s.replace(/- /g, '')]: every occurrence of a hyphen followed by a
    space is removed, scanning from the left. *)
Fixpoint remove_dash_space (s : jsstring) : jsstring :=
  match s with
  | [] => []
  | c :: s' =>
    match s' with
    | c2 :: s'' =>
      if (c =? 45)%N && (c2 =? 32)%N then remove_dash_space s''
      else c :: remove_dash_space s'
    | [] => [c]
    end
  end.

(** [arr.join(sep)] on an array of strings. *)
Fixpoint join (sep : jsstring) (l : list jsstring) : jsstring :=
  match l with
  | [] => []
  | [x] => x
  | x :: r => x ++ sep ++ join sep r
  end.

(** *** Errors and exceptions *)

Inductive error :=
  | NavigationError        (* page.goto rejects: timeout, network *)
  | WaitTimeout            (* page.waitForFunction rejects *)
  | CaptchaTimeout         (* new Error('CAPTCHA solving timeout') *)
  | EvaluateError          (* page.evaluate rejects *)
  | ContentError           (* page.content rejects *)
  | ContentNotFound        (* new Error('Content not found - possible bot detection') *)
  | SyntaxError            (* JSON.parse *)
  | TypeError              (* property of null, call of a non-function *)
  | DriverError.           (* launch, newPage, setViewport, close ... reject *)

Inductive Exn (A : Type) :=
  | Ok (a : A)
  | Throw (e : error).
Arguments Ok {A} a.
Arguments Throw {A} e.

#[export] Instance Exn_ret : MRet Exn := @Ok.
#[export] Instance Exn_bind : MBind Exn := λ A B k m,
  match m with
  | Ok a => k a
  | Throw e => Throw e
  end.

(** [guard ok e]: an operation of the driver that resolves when [ok] and
    rejects with [e] otherwise. *)
Definition guard (ok : bool) (e : error) : Exn unit :=
  if ok then Ok tt else Throw e.

(** *** Values produced by [JSON.parse]

    A number is [JNum n] when it is a safe integer (below 2^53 in
    magnitude; [-0] is [JNum 0]) and [JReal printed] otherwise (a
    fraction, a larger magnitude, an infinity), [printed] being the string
    that [String] gives for it, which determines the number. An object is
    the list of its own properties, each key once. *)

#[warnings="-register-all"]
Inductive json :=
  | JNull
  | JBool (b : bool)
  | JNum (n : Z)
  | JStr (s : jsstring)
  | JArr (l : list json)
  | JObj (fields : list (jsstring * json))
  | JReal (printed : jsstring).

(** The result of reading a property: [None] is [undefined]. *)
Abbreviation value := (option json).

(** ToBoolean *)
Definition truthy (v : value) : bool :=
  match v with
  | None => false
  | Some JNull => false
  | Some (JBool b) => b
  | Some (JNum n) => negb (n =? 0)
  | Some (JStr s) => nonempty s
  | Some (JArr _) => true
  | Some (JObj _) => true
  | Some (JReal _) => true
  end.

Fixpoint lookup_field (key : jsstring) (fields : list (jsstring * json)) : value :=
  match fields with
  | [] => None
  | (k, v) :: rest => if bool_decide (k = key) then Some v else lookup_field key rest
  end.

(** [v.key] for the keys the crawler reads (name, description, sku, image,
    offers, availability, price): reading a property of [null] or
    [undefined] throws; the prototypes of strings, numbers, booleans and
    arrays have none of these keys. *)
Definition prop (v : value) (key : jsstring) : Exn value :=
  match v with
  | None => Throw TypeError
  | Some JNull => Throw TypeError
  | Some (JObj fields) => Ok (lookup_field key fields)
  | Some _ => Ok None
  end.

Definition is_str (x : jsstring) (v : json) : bool :=
  match v with
  | JStr s => bool_decide (s = x)
  | _ => false
  end.

(** [v.includes(x)] for a string [x]: substring test on a string, element
    test on an array, a TypeError on anything else (no such method). *)
Definition includes_method (v : json) (x : jsstring) : Exn bool :=
  match v with
  | JStr s => Ok (includes x s)
  | JArr l => Ok (existsb (is_str x) l)
  | _ => Throw TypeError
  end.

(** [v.startsWith(x)]: only strings have the method. *)
Definition startsWith_method (v : json) (x : jsstring) : Exn bool :=
  match v with
  | JStr s => Ok (startsWith x s)
  | _ => Throw TypeError
  end.

(** Decimal digits of a safe integer, as [String(n)] prints it. *)
Definition string_of_Z (n : Z) : jsstring :=
  str (DecimalString.NilZero.string_of_int (Z.to_int n)).

(** [String(v)], and the conversion of [v] in a template literal. An
    object is converted by its [toString] method: an own property of that
    name, which in a parsed value is never a function, hides the inherited
    method, the inherited [valueOf] returns the object itself, and the
    conversion throws a TypeError. An array joins the conversions of its
    elements, those of [null] being empty. *)
Fixpoint toString (v : json) : Exn jsstring :=
  match v with
  | JNull => Ok (str "null")
  | JBool true => Ok (str "true")
  | JBool false => Ok (str "false")
  | JNum n => Ok (string_of_Z n)
  | JReal printed => Ok printed
  | JStr s => Ok s
  | JArr l =>
    (fix items (l : list json) : Exn jsstring :=
       match l with
       | [] => Ok []
       | x :: r =>
         match (match x with JNull => Ok [] | _ => toString x end) with
         | Throw e => Throw e
         | Ok sx =>
           match r with
           | [] => Ok sx
           | _ :: _ =>
             match items r with
             | Throw e => Throw e
             | Ok rest => Ok (sx ++ str "," ++ rest)
             end
           end
         end
       end) l
  | JObj fields =>
    match lookup_field (str "toString") fields with
    | Some _ => Throw TypeError
    | None => Ok (str "[object Object]")
    end
  end.

End JS.

Import JS.

(** ** The parsed page

    [cheerio.load(html)] gives the query function. The crawler only
    asks, for a selector, for the matched elements in document order, and
    of an element for its text, its [href] attribute and its inner HTML. *)

Record Element := {
  el_text : jsstring;            (* $(el).text() *)
  el_href : option jsstring;     (* $(el).attr('href'), None when undefined *)
  el_html : jsstring             (* $(el).html() *)
}.

(** The selectors the crawler passes to [$]. *)
Inductive Selector :=
  | a_href_products        (* a[href*="/products/"] *)
  | Bm3ON                  (* .Bm3ON *)
  | data_tracking_card     (* [data-tracking="product-card"] *)
  | qmXQo                  (* .qmXQo *)
  | pdp_product_title      (* .pdp-product-title *)
  | h1                     (* h1 *)
  | pdp_badge_title        (* .pdp-mod-product-badge-title *)
  | origin_block_span      (* $('.pdp-product-price').find('.origin-block span') *)
  | pdp_price_type_normal  (* $('.pdp-product-price').find('.pdp-price_type_normal') *)
  | class_price            (* [class*="price"] *)
  | delivery_time_item     (* .delivery-option-item__time *)
  | article_p              (* $('.pdp-product-detail article.lzd-article').find('p') *)
  | ld_json_script         (* script[type="application/ld+json"] *)
  | root.                  (* #root *)

Definition CheerioAPI := Selector → list Element.

(** [$(sel).first().text()]: the empty string when nothing matches. *)
Definition first_text (doc : CheerioAPI) (sel : Selector) : jsstring :=
  match doc sel with
  | [] => []
  | e :: _ => el_text e
  end.

(** [$(sel).first().html()]: null when nothing matches. *)
Definition first_html (doc : CheerioAPI) (sel : Selector) : option jsstring :=
  match doc sel with
  | [] => None
  | e :: _ => Some (el_html e)
  end.

(** ** Link discovery: the body of [getProductLinks] after the page is parsed *)

Module Links.

Definition products_seg : jsstring := str "/products/".

(** Lines 159-168: absolutize protocol-relative, site-relative and
    bare-relative hrefs. *)
Definition fullUrl (href : jsstring) : jsstring :=
  if startsWith (str "//") href then str "https:" ++ href
  else if startsWith (str "/") href then str "https://www.lazada.vn" ++ href
  else if negb (startsWith (str "http") href) then str "https://www.lazada.vn/" ++ href
  else href.

(** Line 171: [fullUrl.split('?')[0]]; 63 is the question mark. *)
Definition cleanUrl (href : jsstring) : jsstring := split_head 63%N (fullUrl href).

(** The two accumulators of the loop. *)
Record Acc := { links : list jsstring; seen : gset jsstring }.

Definition acc0 : Acc := {| links := []; seen := ∅ |}.

(** Lines 157-177: the callback of [.each] on one element. *)
Definition visit (a : Acc) (el : Element) : Acc :=
  match el_href el with
  | None => a
  | Some href =>
    if nonempty href && includes products_seg href && negb (bool_decide (href ∈ seen a)) then
      let c := cleanUrl href in
      if negb (bool_decide (c ∈ seen a)) && includes products_seg c then
        {| links := links a ++ [c]; seen := {[c]} ∪ seen a |}
      else a
    else a
  end.

(** [$(selector).each(...)] *)
Definition each (doc : CheerioAPI) (selector : Selector) (a : Acc) : Acc :=
  fold_left visit (doc selector) a.

Definition selectors : list Selector :=
  [a_href_products; Bm3ON; data_tracking_card; qmXQo].

(** Lines 155-181: the loop over the selectors with its [break]. *)
Fixpoint collect (doc : CheerioAPI) (sels : list Selector) (maxProducts : Z) (a : Acc) : Acc :=
  match sels with
  | [] => a
  | selector :: rest =>
    let a' := each doc selector a in
    if Z.of_nat (length (links a')) >=? maxProducts then a'
    else collect doc rest maxProducts a'
  end.

(** Lines 143-186, for an integer [maxProducts]: the program passes the
    number of products of a category, or 50. *)
Definition productLinks (doc : CheerioAPI) (maxProducts : Z) : list jsstring :=
  slice0 (links (collect doc selectors maxProducts acc0)) maxProducts.

End Links.

(** ** Field extraction from a product page *)

Module Extract.

(** Lines 197-213. [title && title.length > 10]. *)
Definition acceptable (title : jsstring) : bool :=
  nonempty title && (10 <? Z.of_nat (length title)).

Definition title_selectors : list Selector :=
  [pdp_product_title; h1; pdp_badge_title].

Fixpoint firstTitle (doc : CheerioAPI) (sels : list Selector) : jsstring :=
  match sels with
  | [] => []
  | selector :: rest =>
    let title := trim (first_text doc selector) in
    if acceptable title then title else firstTitle doc rest
  end.

Definition getTitle (doc : CheerioAPI) : jsstring := firstTitle doc title_selectors.

(** The character class [[,\s\.]]. *)
Definition is_sep (c : char16) : bool :=
  (c =? 44)%N || is_space c || (c =? 46)%N.

(** [s.replace(/Rp|₫|[,\s\.]/g, '')] when [rp], and
    [s.replace(/₫|[,\s\.]/g, '')] otherwise. *)
Fixpoint strip (rp : bool) (s : jsstring) : jsstring :=
  match s with
  | [] => []
  | c :: s' =>
    let one := if (c =? dong)%N || is_sep c then strip rp s' else c :: strip rp s' in
    match s' with
    | c2 :: s'' => if rp && (c =? 82)%N && (c2 =? 112)%N then strip rp s'' else one
    | [] => one
    end
  end.

(** [s.replace(..., '').trim()], the normalization of a price text. *)
Definition normalize (rp : bool) (s : jsstring) : jsstring := trim (strip rp s).

(** The character class [[\d\.,]]. *)
Definition is_amount (c : char16) : bool :=
  is_digit c || (c =? 46)%N || (c =? 44)%N.

(** The longest prefix of [s] whose characters satisfy [p], and the rest. *)
Fixpoint span (p : char16 → bool) (s : jsstring) : jsstring * jsstring :=
  match s with
  | [] => ([], [])
  | c :: s' =>
    if p c then let '(a, b) := span p s' in (c :: a, b) else ([], s)
  end.

(** A match of [/[\d\.,]+\s*₫/] anchored at the start of [s]. The three
    classes are disjoint, so the greedy choice is the only one. *)
Definition match_here (s : jsstring) : option jsstring :=
  let '(amount, r1) := span is_amount s in
  let '(blank, r2) := span is_space r1 in
  match amount, r2 with
  | _ :: _, c :: _ => if (c =? dong)%N then Some (amount ++ blank ++ [dong]) else None
  | _, _ => None
  end.

(** [s.match(/[\d\.,]+\s*₫/g)]: the matches from left to right, the
    search resuming after the end of each match. [skip] counts the
    characters of the last match still to pass over. The empty list stands
    for [null]. *)
Fixpoint scan (skip : nat) (s : jsstring) : list jsstring :=
  match s with
  | [] => []
  | _ :: s' =>
    match skip with
    | S k => scan k s'
    | O =>
      match match_here s with
      | Some m => m :: scan (length m - 1) s'
      | None => scan 0 s'
      end
    end
  end.

Definition priceMatches (priceText : jsstring) : list jsstring := scan 0 priceText.

Record Prices := { regularPrice : jsstring; salePrice : jsstring }.

(** Lines 218-259. *)
Definition getPrices (doc : CheerioAPI) : Prices :=
  let originBlock := first_text doc origin_block_span in
  let regularPrice := if nonempty originBlock then normalize true originBlock else [] in
  let salePriceEl := first_text doc pdp_price_type_normal in
  let salePrice := if nonempty salePriceEl then normalize true salePriceEl else [] in
  if negb (nonempty regularPrice) && negb (nonempty salePrice) then
    let priceText := first_text doc class_price in
    match priceMatches priceText with
    | [] => {| regularPrice := regularPrice; salePrice := salePrice |}
    | m0 :: more =>
      let salePrice := normalize false m0 in
      match more with
      | m1 :: _ => {| regularPrice := normalize false m1; salePrice := salePrice |}
      | [] => {| regularPrice := regularPrice; salePrice := salePrice |}
      end
    end
  else {| regularPrice := regularPrice; salePrice := salePrice |}.

(** Lines 264-271. *)
Definition getDeliveryTime (doc : CheerioAPI) : jsstring :=
  trim (first_text doc delivery_time_item).

(** Lines 276-292. *)
Definition paragraph (el : Element) : jsstring :=
  trim (remove_dash_space (remove_newlines (el_text el))).

Definition getDescription (doc : CheerioAPI) : jsstring :=
  join (str ", ") (List.filter nonempty (List.map paragraph (doc article_p))).

(** *** The JSON-LD block, lines 297-370 *)

Record JsonLdData := {
  name : json;
  description : json;
  productId : json;
  imageUrl : jsstring;
  stock : jsstring;
  priceFromJson : jsstring
}.

Definition result0 : JsonLdData :=
  {| name := JStr []; description := JStr []; productId := JStr [];
     imageUrl := []; stock := str "0"; priceFromJson := [] |}.

Definition set_name (v : json) (r : JsonLdData) : JsonLdData :=
  {| name := v; description := description r; productId := productId r;
     imageUrl := imageUrl r; stock := stock r; priceFromJson := priceFromJson r |}.
Definition set_description (v : json) (r : JsonLdData) : JsonLdData :=
  {| name := name r; description := v; productId := productId r;
     imageUrl := imageUrl r; stock := stock r; priceFromJson := priceFromJson r |}.
Definition set_productId (v : json) (r : JsonLdData) : JsonLdData :=
  {| name := name r; description := description r; productId := v;
     imageUrl := imageUrl r; stock := stock r; priceFromJson := priceFromJson r |}.
Definition set_imageUrl (s : jsstring) (r : JsonLdData) : JsonLdData :=
  {| name := name r; description := description r; productId := productId r;
     imageUrl := s; stock := stock r; priceFromJson := priceFromJson r |}.
Definition set_stock (s : jsstring) (r : JsonLdData) : JsonLdData :=
  {| name := name r; description := description r; productId := productId r;
     imageUrl := imageUrl r; stock := s; priceFromJson := priceFromJson r |}.
Definition set_priceFromJson (s : jsstring) (r : JsonLdData) : JsonLdData :=
  {| name := name r; description := description r; productId := productId r;
     imageUrl := imageUrl r; stock := stock r; priceFromJson := s |}.

(** The body of the [try] block runs statement after statement on the
    mutable [result]; an exception leaves [result] as it is at that point
    and the [catch] returns it. *)
Inductive Flow :=
  | Next (r : JsonLdData)      (* fall through to the next statement *)
  | Caught (r : JsonLdData).   (* an exception was thrown *)

Definition Stmt := JsonLdData → Flow.

Definition seq (s1 s2 : Stmt) : Stmt := fun r =>
  match s1 r with
  | Next r' => s2 r'
  | Caught r' => Caught r'
  end.

Definition finish (f : Flow) : JsonLdData :=
  match f with Next r => r | Caught r => r end.

(** [if (jsonData.key) { result.field = jsonData.key }] *)
Definition copy_field (jsonData : value) (key : jsstring)
    (set : json → JsonLdData → JsonLdData) : Stmt := fun r =>
  match prop jsonData key with
  | Throw _ => Caught r
  | Ok (Some v) => if truthy (Some v) then Next (set v r) else Next r
  | Ok None => Next r
  end.

(** Lines 336-350. *)
Definition image_stmt (jsonData : value) : Stmt := fun r =>
  match prop jsonData (str "image") with
  | Throw _ => Caught r
  | Ok image =>
    if truthy image then
      let imageUrl : value :=
        match image with
        | Some (JStr s) => Some (JStr s)
        | Some (JArr (x :: _)) => Some x
        | _ => Some (JStr [])
        end in
      match imageUrl with
      | Some u =>
        if truthy imageUrl then
          match startsWith_method u (str "http"), toString u with
          | Ok true, Ok s => Next (set_imageUrl s r)
          | Ok false, Ok s => Next (set_imageUrl (str "https:" ++ s) r)
          | _, _ => Caught r
          end
        else Next r
      | None => Next r
      end
    else Next r
  end.

(** Lines 353-358. *)
Definition stock_stmt (jsonData : value) : Stmt := fun r =>
  match prop jsonData (str "offers") with
  | Throw _ => Caught r
  | Ok offers =>
    if truthy offers then
      match prop offers (str "availability") with
      | Throw _ => Caught r
      | Ok availability =>
        if truthy availability then
          match availability with
          | Some a =>
            match includes_method a (str "InStock") with
            | Throw _ => Caught r
            | Ok true => Next (set_stock (str "1") r)
            | Ok false =>
              match includes_method a (str "LimitedAvailability") with
              | Throw _ => Caught r
              | Ok b => Next (set_stock (if b then str "1" else str "0") r)
              end
            end
          | None => Next r
          end
        else Next r
      end
    else Next r
  end.

(** Lines 361-363. *)
Definition price_stmt (jsonData : value) : Stmt := fun r =>
  match prop jsonData (str "offers") with
  | Throw _ => Caught r
  | Ok offers =>
    if truthy offers then
      match prop offers (str "price") with
      | Throw _ => Caught r
      | Ok (Some price) =>
        if truthy (Some price) then
          match toString price with
          | Ok s => Next (set_priceFromJson s r)
          | Throw _ => Caught r
          end
        else Next r
      | Ok None => Next r
      end
    else Next r
  end.

Definition body (jsonData : value) : Stmt :=
  seq (copy_field jsonData (str "name") set_name)
  (seq (copy_field jsonData (str "description") set_description)
  (seq (copy_field jsonData (str "sku") set_productId)
  (seq (image_stmt jsonData)
  (seq (stock_stmt jsonData) (price_stmt jsonData))))).

Section WithParser.

(** [JSON.parse]: [None] when it throws a SyntaxError. *)
Variable JSON_parse : jsstring → option json.

Definition getJsonLdData (doc : CheerioAPI) : JsonLdData :=
  match first_html doc ld_json_script with
  | None => result0
  | Some jsonLdScript =>
    if negb (nonempty jsonLdScript) then result0
    else
      match JSON_parse (remove_newlines jsonLdScript) with
      | None => result0
      | Some jsonData => finish (body (Some jsonData) result0)
      end
  end.

End WithParser.

End Extract.

(** ** The browser

    What the browser does is outside the program; one navigation is
    described by the answers the driver gives to the calls the crawler
    makes after [page.goto]. *)

(** One round of the wait loop of [handleCaptcha]: [delay(2, 3)] lasts at
    least two seconds, [late] is what the round takes beyond that on the
    clock of [Date.now()], in milliseconds; [present] is the answer of
    [detectCaptcha] at the end of the round. *)
Record Poll := { late : N; present : bool }.

Record Visit := {
  goto_ok : bool;                (* page.goto resolves *)
  ready_ok : bool;               (* the first page.waitForFunction resolves *)
  hasCaptcha : bool;             (* detectCaptcha right after the navigation *)
  polls : nat → Poll;            (* the rounds of the wait loop *)
  reload_ok : bool;              (* page.waitForFunction after the CAPTCHA resolves *)
  scroll_ok : bool;              (* every page.evaluate of the scrolling resolves *)
  content : option CheerioAPI;   (* cheerio.load(await page.content()), None when page.content rejects *)
  now : jsstring;                (* new Date().toISOString() at line 441 *)
  elapsed_ms : Z                 (* Date.now() - startTime at line 442 *)
}.

(** The [n]-th navigation of the session, to the given URL. *)
Definition Web := nat → jsstring → Visit.

Module Captcha.

Definition maxWaitTime : Z := 60000.

Record Wait := {
  outcome : Exn unit;   (* returns, or throws *)
  rounds : nat;         (* rounds of the loop that were run *)
  waited : Z            (* Date.now() - startTime when the loop was left *)
}.

(** Lines 72-83: the loop, from its [i]-th test of the clock, [elapsed]
    milliseconds after [startTime]. *)
Equations? waitLoop (polls : nat → Poll) (i : nat) (elapsed : Z) : Wait
  by wf (Z.to_nat (maxWaitTime - elapsed)) lt :=
  waitLoop polls i elapsed with Z_lt_dec elapsed maxWaitTime := {
    | left _ =>
      let t := elapsed + 2000 + Z.of_N (late (polls i)) in
      if present (polls i) then waitLoop polls (S i) t
      else {| outcome := Ok tt; rounds := S i; waited := t |}
    | right _ =>
      {| outcome := Throw CaptchaTimeout; rounds := i; waited := elapsed |}
  }.
Proof. unfold maxWaitTime in *. lia. Qed.

(** Lines 63-84. *)
Definition handleCaptcha (polls : nat → Poll) : Wait := waitLoop polls 0 0.

(** Lines 395-397 and 123-126: the check and the conditional wait. *)
Definition ensure (v : Visit) : Wait :=
  if hasCaptcha v then handleCaptcha (polls v)
  else {| outcome := Ok tt; rounds := 0; waited := 0 |}.

End Captcha.

(** ** The crawler *)

Record LazadaProduct := {
  pdp_url : jsstring;
  pdp_title_value : jsstring;
  price_rp : jsstring;
  price_sp : jsstring;
  delivery_time : jsstring;
  pdp_desc_value : json;
  web_pid : json;
  vosa : jsstring;
  pdp_image_url : jsstring;
  pdp_image_count : jsstring;
  crawledAt : jsstring;
  execution_time : Q;
  category : option jsstring
}.

Record Category := {
  cat_name : jsstring;
  cat_url : jsstring;
  maxProducts : option Z
}.

(** The two fields of the class, and the number of navigations made so
    far, which selects the next [Visit] of the [Web]. *)
Record Crawler := {
  results : list LazadaProduct;
  failedUrls : list jsstring;
  visits : nat
}.

Definition new_crawler : Crawler := {| results := []; failedUrls := []; visits := 0 |}.

(** The document [saveResults] writes. *)
Record Output := {
  out_crawledAt : jsstring;
  totalProducts : nat;
  successfulUrls : nat;
  out_failedUrls : nat;
  products : list LazadaProduct;
  failed : list jsstring
}.

(** The answers of the driver and of the file system to the calls of a
    session outside the per-product crawl. *)
Record Driver := {
  launch_ok : bool;          (* puppeteer.launch *)
  newPage_ok : bool;         (* browser.newPage *)
  setViewport_ok : bool;     (* page.setViewport *)
  setHeaders_ok : bool;      (* page.setExtraHTTPHeaders *)
  pageClose_ok : bool;       (* page.close *)
  mkdir_ok : bool;           (* mkdirSync *)
  write_ok : bool;           (* writeFileSync *)
  browserClose_ok : bool;    (* browser.close *)
  save_time : jsstring       (* new Date().toISOString() in saveResults *)
}.

(** What a session did. *)
Record Run := {
  final : Crawler;
  saveResults_called : bool;
  written : option Output;   (* the document handed to writeFileSync *)
  fatal_logged : bool;       (* the [catch] of the session ran *)
  rejected : bool            (* browser.close threw in the [finally] *)
}.

Module Crawl.

Import Extract Captcha.

Section WithParser.

Variable JSON_parse : jsstring → option json.

(** Lines 419-428. *)
Definition finalTitle (doc : CheerioAPI) : json :=
  let title := getTitle doc in
  if nonempty title then JStr title else name (getJsonLdData JSON_parse doc).

Definition finalDescription (doc : CheerioAPI) : json :=
  let description := getDescription doc in
  if nonempty description then JStr description
  else Extract.description (getJsonLdData JSON_parse doc).

Definition finalRegularPrice (doc : CheerioAPI) : jsstring :=
  let regularPrice := regularPrice (getPrices doc) in
  if nonempty regularPrice then regularPrice
  else priceFromJson (getJsonLdData JSON_parse doc).

(** Lines 413-448, once the page is parsed. The call
    [finalTitle.substring(0, 50)] of line 445 throws unless the title is a
    string. *)
Definition extract (url : jsstring) (v : Visit) (doc : CheerioAPI) : Exn LazadaProduct :=
  guard (negb (length (doc root) =? 0)%nat) ContentNotFound;;
  let jsonLdData := getJsonLdData JSON_parse doc in
  match finalTitle doc with
  | JStr title =>
    Ok {| pdp_url := url;
          pdp_title_value := title;
          price_rp := finalRegularPrice doc;
          price_sp := salePrice (getPrices doc);
          delivery_time := getDeliveryTime doc;
          pdp_desc_value := finalDescription doc;
          web_pid := productId jsonLdData;
          vosa := stock jsonLdData;
          pdp_image_url := imageUrl jsonLdData;
          pdp_image_count := if nonempty (imageUrl jsonLdData) then str "1" else str "0";
          crawledAt := now v;
          execution_time := elapsed_ms v # 1000;
          category := None |}
  | _ => Throw TypeError
  end.

Definition page_content (v : Visit) : Exn CheerioAPI :=
  match content v with
  | Some doc => Ok doc
  | None => Throw ContentError
  end.

(** Lines 379-448: the [try] block of [crawlProduct]. *)
Definition visitProduct (url : jsstring) (v : Visit) : Exn LazadaProduct :=
  guard (goto_ok v) NavigationError;;
  guard (ready_ok v) WaitTimeout;;
  outcome (ensure v);;
  (if hasCaptcha v then guard (reload_ok v) WaitTimeout else Ok tt);;
  guard (scroll_ok v) EvaluateError;;
  doc ← page_content v;
  extract url v doc.

(** Lines 375-454: [null] is [None]. *)
Definition crawlProduct (web : Web) (n : nat) (url : jsstring) : option LazadaProduct :=
  match visitProduct url (web n url) with
  | Ok product => Some product
  | Throw _ => None
  end.

(** Lines 111-192. *)
Definition getProductLinks (web : Web) (n : nat) (categoryUrl : jsstring)
    (maxProducts : Z) : list jsstring :=
  let v := web n categoryUrl in
  match
    guard (goto_ok v) NavigationError;;
    outcome (ensure v);;
    guard (scroll_ok v) EvaluateError;;
    doc ← page_content v;
    Ok (Links.productLinks doc maxProducts)
  with
  | Ok productLinks => productLinks
  | Throw _ => []
  end.

Definition set_category (c : jsstring) (p : LazadaProduct) : LazadaProduct :=
  {| pdp_url := pdp_url p; pdp_title_value := pdp_title_value p;
     price_rp := price_rp p; price_sp := price_sp p;
     delivery_time := delivery_time p; pdp_desc_value := pdp_desc_value p;
     web_pid := web_pid p; vosa := vosa p; pdp_image_url := pdp_image_url p;
     pdp_image_count := pdp_image_count p; crawledAt := crawledAt p;
     execution_time := execution_time p; category := Some c |}.

(** Lines 550-556 and 484-492: one target. In category mode the product
    gets the name of the category. *)
Definition crawlOne (web : Web) (cat : option jsstring) (c : Crawler) (url : jsstring) : Crawler :=
  match crawlProduct web (visits c) url with
  | Some product =>
    let product := match cat with Some nm => set_category nm product | None => product end in
    {| results := results c ++ [product]; failedUrls := failedUrls c;
       visits := S (visits c) |}
  | None =>
    {| results := results c; failedUrls := failedUrls c ++ [url];
       visits := S (visits c) |}
  end.

(** Lines 547-564 and 481-500: the loop over the targets. *)
Definition crawlAll (web : Web) (cat : option jsstring) (urls : list jsstring) (c : Crawler) : Crawler :=
  fold_left (crawlOne web cat) urls c.

(** [category.maxProducts || 50] *)
Definition cap_of (category : Category) : Z :=
  match maxProducts category with
  | Some n => if n =? 0 then 50 else n
  | None => 50
  end.

(** The links that [crawlCategory] gets from [getProductLinks]. *)
Definition discovered (web : Web) (category : Category) (c : Crawler) : list jsstring :=
  getProductLinks web (visits c) (cat_url category) (cap_of category).

(** Lines 459-509. *)
Definition crawlCategory (web : Web) (c : Crawler) (category : Category) : Crawler :=
  let productLinks := discovered web category c in
  let c1 := {| results := results c; failedUrls := failedUrls c; visits := S (visits c) |} in
  if (length productLinks =? 0)%nat then c1
  else crawlAll web (Some (cat_name category)) productLinks c1.

(** Lines 640-666. *)
Definition output (d : Driver) (c : Crawler) : Output :=
  {| out_crawledAt := save_time d;
     totalProducts := length (results c);
     successfulUrls := length (results c);
     out_failedUrls := length (failedUrls c);
     products := results c;
     failed := failedUrls c |}.

(** The [try] / [catch] of a session around the loop [loop]. *)
Definition session (d : Driver) (loop : Crawler → Crawler) (c : Crawler) : Run :=
  if newPage_ok d && setViewport_ok d && setHeaders_ok d then
    let c' := loop c in
    if pageClose_ok d then
      if mkdir_ok d then
        {| final := c'; saveResults_called := true; written := Some (output d c');
           fatal_logged := negb (write_ok d); rejected := negb (browserClose_ok d) |}
      else
        {| final := c'; saveResults_called := true; written := None;
           fatal_logged := true; rejected := negb (browserClose_ok d) |}
    else {| final := c'; saveResults_called := false; written := None;
            fatal_logged := true; rejected := negb (browserClose_ok d) |}
  else {| final := c; saveResults_called := false; written := None;
          fatal_logged := true; rejected := negb (browserClose_ok d) |}.

(** [puppeteer.launch] is outside the [try]: when it rejects nothing runs. *)
Definition launched (d : Driver) (r : Run) : Exn Run :=
  guard (launch_ok d) DriverError;;
  Ok r.

(** Lines 514-577. *)
Definition crawlByUrls (d : Driver) (web : Web) (urls : list jsstring) (c : Crawler) : Exn Run :=
  launched d (session d (crawlAll web None urls) c).

(** Lines 582-635. *)
Definition crawlByCategories (d : Driver) (web : Web) (categories : list Category)
    (c : Crawler) : Exn Run :=
  launched d (session d (fun c => fold_left (crawlCategory web) categories c) c).

End WithParser.

End Crawl.

(** * Vocabulary of the properties, and sample inputs *)

Import Extract Captcha Crawl.

(** Replace the literals [str "..."] by their code units. *)
Ltac literals :=
  repeat match goal with
  | |- context [str ?s] =>
    let v := eval vm_compute in (str s) in change (str s) with v
  | H : context [str ?s] |- _ =>
    let v := eval vm_compute in (str s) in change (str s) with v in H
  end.

(** The canonical form of a URL: its part before the query string. *)
Definition canonical (url : jsstring) : jsstring := split_head 63%N url.

(** The invariant of the two accumulators: the links are pairwise
    distinct, each is in [seen], and none has a query string. *)
Record links_ok (a : Links.Acc) : Prop := {
  ok_nodup : NoDup (Links.links a);
  ok_seen : ∀ x, x ∈ Links.links a → x ∈ Links.seen a;
  ok_clean : Forall (λ x, canonical x = x) (Links.links a)
}.

(** An anchor with the given [href]. *)
Definition anchor (href : string) : Element :=
  {| el_text := []; el_href := Some (str href); el_html := [] |}.

(** A listing page whose first selector matches three product links. *)
Definition listing3 : CheerioAPI := fun sel =>
  match sel with
  | a_href_products =>
    [anchor "/products/a-i1.html?spm=1"; anchor "//www.lazada.vn/products/b-i2.html";
     anchor "https://www.lazada.vn/products/c-i3.html"]
  | _ => []
  end.

(** What the global replace of the pattern scan keeps of a character. *)
Definition kept (c : char16) : bool := negb ((c =? dong)%N || is_sep c).




(** "271.043₫548.772 ₫-51%" *)
Definition sample_price_text : jsstring :=
  str "271.043" ++ [dong] ++ str "548.772 " ++ [dong] ++ str "-51%".

(** The parsed JSON-LD block of a page: [None] when the script is absent
    or empty, or when [JSON.parse] throws. *)
Definition ld_block (JSON_parse : jsstring → option json) (doc : CheerioAPI) : option json :=
  match first_html doc ld_json_script with
  | Some script => if nonempty script then JSON_parse (remove_newlines script) else None
  | None => None
  end.

(** The trimmed texts of the three title selectors, in the order tried. *)
Definition title_candidates (doc : CheerioAPI) : list jsstring :=
  (λ sel, trim (first_text doc sel)) <$> [pdp_product_title; h1; pdp_badge_title].

(** A statement that leaves the field [f] of [result] alone. *)
Definition keeps {A} (f : JsonLdData → A) (s : Stmt) : Prop :=
  ∀ r, f (finish (s r)) = f r.

(** A parser that answers [v] whatever the script. *)
Definition parse_as (v : json) : jsstring → option json := fun _ => Some v.

(** A product page: the texts of the title selectors, the text of the
    price element and a non-empty JSON-LD script. *)
Definition product_page (title heading : jsstring) (priceText : jsstring) : CheerioAPI := fun sel =>
  let text t := [ {| el_text := t; el_href := None; el_html := [] |} ] in
  match sel with
  | pdp_product_title => text title
  | h1 => text heading
  | class_price => text priceText
  | ld_json_script => [ {| el_text := []; el_href := None; el_html := str "{}" |} ]
  | root => text []
  | _ => []
  end.

(** A block whose [name] is "Foo Product". *)
Definition foo_block : json :=
  JObj [(str "name", JStr (str "Foo Product"))].

(** The [image] entries on which lines 336-350 do not throw: anything but
    an array whose first element is truthy and not a string. *)
Definition image_harmless (image : value) : Prop :=
  match image with
  | Some (JArr (x :: _)) => truthy (Some x) = true → ∃ s, x = JStr s
  | _ => True
  end.

(** A statement that does not throw and leaves [stock] alone. *)
Definition passes (s : Stmt) : Prop :=
  ∀ r, ∃ r', s r = Next r' ∧ stock r' = stock r.

(** A block that lists its images as objects and says the product is in
    stock:
    {"image": [{"url": "https://img/1.jpg"}],
     "offers": {"availability": "https://schema.org/InStock", "price": 271043}} *)
Definition image_objects_block : json :=
  JObj [(str "image", JArr [JObj [(str "url", JStr (str "https://img/1.jpg"))]]);
        (str "offers", JObj [(str "availability", JStr (str "https://schema.org/InStock"));
                             (str "price", JNum 271043)])].

(** The same block with the image given as a string. *)
Definition image_string_block : json :=
  JObj [(str "image", JStr (str "//img/1.jpg"));
        (str "offers", JObj [(str "availability", JStr (str "https://schema.org/InStock"));
                             (str "price", JNum 271043)])].

(** A navigation on which everything resolves and no CAPTCHA shows. *)
Definition smooth_visit (doc : CheerioAPI) : Visit :=
  {| goto_ok := true; ready_ok := true; hasCaptcha := false;
     polls := fun _ => {| late := 0; present := false |};
     reload_ok := true; scroll_ok := true; content := Some doc;
     now := str "2024-01-15T10:30:45.000Z"; elapsed_ms := 5230 |}.

(** The web on which every navigation goes the same way. *)
Definition always (v : Visit) : Web := fun _ _ => v.

Definition sample_url : jsstring := str "https://www.lazada.vn/products/ao-i1.html".

(** The clock at the [i]-th test of the wait loop, in milliseconds after
    [startTime]. *)
Fixpoint clock (polls : nat → Poll) (i : nat) : Z :=
  match i with
  | O => 0
  | S j => clock polls j + 2000 + Z.of_N (late (polls j))
  end.

(** The CAPTCHA is still there at the end of every round that starts
    before the deadline. *)
Definition captcha_stays (polls : nat → Poll) : Prop :=
  ∀ i, clock polls i < maxWaitTime → present (polls i) = true.

(** A navigation that ends on a CAPTCHA nobody solves. *)
Definition stuck_visit : Visit :=
  {| goto_ok := true; ready_ok := true; hasCaptcha := true;
     polls := fun _ => {| late := 500; present := true |};
     reload_ok := true; scroll_ok := true; content := None;
     now := []; elapsed_ms := 0 |}.

(** The check finds the CAPTCHA whenever it is made up to [T]
    milliseconds after [startTime]. *)
Definition detected_through (polls : nat → Poll) (T : Z) : Prop :=
  ∀ i, clock polls (S i) ≤ T → present (polls i) = true.

(** The rounds on a page whose CAPTCHA is there for the first 60.5
    seconds of the wait, each round taking 2.9 seconds: the check at the
    end of round [i] is made [2900 * (i + 1)] milliseconds after
    [startTime]. *)
Definition cleared_late : nat → Poll := fun i =>
  {| late := 900; present := 2900 * (Z.of_nat i + 1) <=? 60500 |}.

(** A navigation that ends on that CAPTCHA, and on the page [doc] once it
    is gone. *)
Definition late_visit (doc : CheerioAPI) : Visit :=
  {| goto_ok := true; ready_ok := true; hasCaptcha := true;
     polls := cleared_late;
     reload_ok := true; scroll_ok := true; content := Some doc;
     now := str "2024-01-15T10:30:45.000Z"; elapsed_ms := 75230 |}.

(** The number of entries of the batch. *)
Definition batch_size (c : Crawler) : nat := length (results c) + length (failedUrls c).

(** The targets attempted in category mode: the links discovered for each
    category in turn, each discovery made in the state the crawler is in
    when it reaches that category. *)
Fixpoint attempted (JSON_parse : jsstring → option json) (web : Web)
    (categories : list Category) (c : Crawler) : list jsstring :=
  match categories with
  | [] => []
  | category :: rest =>
    discovered web category c
    ++ attempted JSON_parse web rest (crawlCategory JSON_parse web c category)
  end.

(** A driver on which every call resolves. *)
Definition good_driver : Driver :=
  {| launch_ok := true; newPage_ok := true; setViewport_ok := true;
     setHeaders_ok := true; pageClose_ok := true; mkdir_ok := true;
     write_ok := true; browserClose_ok := true;
     save_time := str "2024-01-15T10:31:00.000Z" |}.

(** A navigation that times out. *)
Definition dead_visit : Visit :=
  {| goto_ok := false; ready_ok := false; hasCaptcha := false;
     polls := fun _ => {| late := 0; present := false |};
     reload_ok := false; scroll_ok := false; content := None;
     now := []; elapsed_ms := 0 |}.

(** The web of the end-to-end scenario: the second navigation times out,
    the others reach a product page. *)
Definition second_fails : Web := fun n _ =>
  if (n =? 1)%nat then dead_visit
  else smooth_visit (product_page (str "A title long enough") [] []).

(** In category mode: the first navigation reaches the listing, the
    following ones product pages. *)
Definition listing_then_products : Web := fun n _ =>
  if (n =? 0)%nat then smooth_visit listing3
  else smooth_visit (product_page (str "A title long enough") [] []).

(** In category mode: the listing is reached and every product
    navigation after it times out. *)
Definition listing_then_dead : Web := fun n _ =>
  if (n =? 0)%nat then smooth_visit listing3 else dead_visit.

Definition sample_category : Category :=
  {| cat_name := str "Trang phuc nam";
     cat_url := str "https://www.lazada.vn/catalog/?q=nam";
     maxProducts := Some 2 |}.

(** The session got its page: the three calls before the loop resolved. *)
Definition page_ready (d : Driver) : bool :=
  newPage_ok d && setViewport_ok d && setHeaders_ok d.

(** The name a block supplies: the value of the [name] property of an
    object, when it is truthy. *)
Definition supplied_name (block : option json) : value :=
  match block with
  | Some (JObj fields) =>
    match lookup_field (str "name") fields with
    | Some v => if truthy (Some v) then Some v else None
    | None => None
    end
  | _ => None
  end.

(** The navigation [v] with other rounds of the wait loop and another
    answer to the wait for the reload. *)
Definition with_captcha_rounds (v : Visit) (pl : nat → Poll) (rl : bool) : Visit :=
  {| goto_ok := goto_ok v; ready_ok := ready_ok v; hasCaptcha := hasCaptcha v;
     polls := pl; reload_ok := rl; scroll_ok := scroll_ok v; content := content v;
     now := now v; elapsed_ms := elapsed_ms v |}.

(** * The rest of the program *)

(** ** The name of the output file, lines 643-644 *)

(** [timestamp.replace(/[:.]/g, '-')]; 58 is the colon, 46 the dot, 45 the
    hyphen. *)
Definition dashed (timestamp : jsstring) : jsstring :=
  List.map (fun c => if (c =? 58)%N || (c =? 46)%N then 45%N else c) timestamp.

Definition filename (timestamp : jsstring) : jsstring :=
  str "data/lazada_products_" ++ dashed timestamp ++ str ".json".

(** ** [main], lines 670-744 *)

Module Main.

Inductive Mode := UrlMode | CategoryMode.

(** Lines 672-677: [args[0] || 'urls'], then the test of the mode. *)
Definition mode_of (arg : option jsstring) : Mode :=
  let mode :=
    match arg with
    | Some a => if nonempty a then a else str "urls"
    | None => str "urls"
    end in
  if bool_decide (mode = str "categories") || bool_decide (mode = str "category")
  then CategoryMode else UrlMode.

(** The two configuration modules: [None] when the import throws or the
    export is undefined. *)
Record Config := {
  LAZADA_URLS : option (list jsstring);
  LAZADA_CATEGORIES : option (list Category)
}.

(** What the process did: its exit status, and the session when one was
    started and its browser launched. *)
Record Exit := { status : Z; ran : option Run }.

(** Lines 738-744: [main().then(() => process.exit(0)).catch(() =>
    process.exit(1))]; the promise of a session rejects when
    [puppeteer.launch] or [browser.close] rejects. *)
Definition settle (r : Exn Run) : Exit :=
  match r with
  | Throw _ => {| status := 1; ran := None |}
  | Ok run => {| status := if rejected run then 1 else 0; ran := Some run |}
  end.

Section WithParser.

Variable JSON_parse : jsstring → option json.

(** Lines 670-725. [process.exit(1)] ends the process at once. *)
Definition main (d : Driver) (web : Web) (arg : option jsstring) (cfg : Config) : Exit :=
  match mode_of arg with
  | CategoryMode =>
    match LAZADA_CATEGORIES cfg with
    | None => {| status := 1; ran := None |}
    | Some [] => {| status := 1; ran := None |}
    | Some categories =>
      settle (Crawl.crawlByCategories JSON_parse d web categories new_crawler)
    end
  | UrlMode =>
    match LAZADA_URLS cfg with
    | None => {| status := 1; ran := None |}
    | Some [] => {| status := 1; ran := None |}
    | Some urls => settle (Crawl.crawlByUrls JSON_parse d web urls new_crawler)
    end
  end.

End WithParser.

End Main.

(** * Vocabulary of the further properties *)

(** A string has no white space at either end. *)
Definition trimmed (s : jsstring) : Prop :=
  (∀ c r, s = c :: r → is_space c = false)
  ∧ (∀ c r, s = r ++ [c] → is_space c = false).

(** The first round of the wait loop at the end of which the CAPTCHA is
    gone is round [k]. *)
Definition clears_at (polls : nat → Poll) (k : nat) : Prop :=
  present (polls k) = false ∧ ∀ j, (j < k)%nat → present (polls j) = true.

(** The fields of the JSON-LD result that are always well formed. *)
Definition well_formed (r : JsonLdData) : Prop :=
  (stock r = str "0" ∨ stock r = str "1")
  ∧ (imageUrl r = [] ∨ startsWith (str "http") (imageUrl r) = true).

(** A statement that keeps [well_formed], whether it throws or not. *)
Definition preserves (P : JsonLdData → Prop) (s : Stmt) : Prop :=
  ∀ r, P r → P (finish (s r)).

(** The targets the configuration gives for a mode, when there are any. *)
Definition configured (arg : option jsstring) (cfg : Main.Config) : bool :=
  match Main.mode_of arg with
  | Main.CategoryMode =>
    match Main.LAZADA_CATEGORIES cfg with Some (_ :: _) => true | _ => false end
  | Main.UrlMode =>
    match Main.LAZADA_URLS cfg with Some (_ :: _) => true | _ => false end
  end.

(** [seen] holds exactly the links collected so far, and each of them is
    its own normal form. *)
Definition tracked (a : Links.Acc) : Prop :=
  (∀ x, x ∈ Links.seen a ↔ x ∈ Links.links a)
  ∧ Forall (λ x, Links.cleanUrl x = x) (Links.links a).

(** The forms in which a page links the path [path] of the site:
    bare-relative, site-relative, protocol-relative and absolute. *)
Definition forms (path : jsstring) : list jsstring :=
  [path; str "/" ++ path; str "//www.lazada.vn/" ++ path;
   str "https://www.lazada.vn/" ++ path].

(** [href] is one of the forms of [path], with or without a query
    string. *)
Definition links_to (path href : jsstring) : Prop :=
  ∃ form query,
    form ∈ forms path ∧ href = form ++ query ∧ (query = [] ∨ ∃ q, query = 63%N :: q).

(** A path of the site, as a bare-relative href has it: it starts neither
    with a slash nor with "http" and has no question mark. *)
Definition site_path (path : jsstring) : Prop :=
  startsWith (str "/") path = false
  ∧ startsWith (str "http") path = false
  ∧ 63%N ∉ path.

(** The number of times [url] is in a list of links. *)
Definition occurrences (url : jsstring) (l : list jsstring) : nat :=
  length (List.filter (fun x => bool_decide (x = url)) l).

(** A listing that links one product in three forms and another once. *)
Definition listing_forms : CheerioAPI := fun sel =>
  match sel with
  | a_href_products =>
    [anchor "/products/a-i1.html?spm=1"; anchor "//www.lazada.vn/products/a-i1.html";
     anchor "/products/b-i2.html"]
  | Bm3ON => [anchor "https://www.lazada.vn/products/a-i1.html?spm=2"]
  | _ => []
  end.

(** An anchor that the callback of link discovery takes for a product
    link: its href and the normalized href both have the product segment. *)
Definition product_anchor (el : Element) (href : jsstring) : Prop :=
  el_href el = Some href
  ∧ includes Links.products_seg href = true
  ∧ includes Links.products_seg (Links.cleanUrl href) = true.

(** The value the block gives for a key: that of the property when it is
    truthy, the empty string otherwise. *)
Definition entry (fields : list (jsstring * json)) (key : jsstring) : json :=
  match lookup_field key fields with
  | Some v => if truthy (Some v) then v else JStr []
  | None => JStr []
  end.

(** A block that has only the price [price] of its offers. *)
Definition priced_block (price : json) : json :=
  JObj [(str "offers", JObj [(str "price", price)])].

(** A block with a numeric SKU and a name, whose image entry makes lines
    336-350 throw. *)
Definition sku_block : json :=
  JObj [(str "name", JStr (str "Foo Product")); (str "sku", JNum 123456);
        (str "image", JArr [JNum 1]);
        (str "offers", JObj [(str "price", JNum 271043)])].

(** Rounds in which the CAPTCHA goes away at the end of the third. *)
Definition solved_in_three : nat → Poll := fun i =>
  {| late := 400; present := (i <? 2)%nat |}.

(** A block whose name is a number. *)
Definition numeric_name_block : json := JObj [(str "name", JNum 2024)].

(** The number of dots of a string. *)
Definition dots (s : jsstring) : nat := length (List.filter (fun c => (c =? 46)%N) s).

(** A driver whose page cannot be opened. *)
Definition no_page_driver : Driver :=
  {| launch_ok := true; newPage_ok := false; setViewport_ok := true;
     setHeaders_ok := true; pageClose_ok := true; mkdir_ok := true;
     write_ok := true; browserClose_ok := true;
     save_time := str "2024-01-15T10:31:00.000Z" |}.

Definition sample_config : Main.Config :=
  {| Main.LAZADA_URLS := Some [sample_url]; Main.LAZADA_CATEGORIES := Some [] |}.

(** * Properties *)

(** ** Strings *)

Lemma split_head_no_sep (c : char16) (s : jsstring) :
  c ∉ s → split_head c s = s.
Proof.
  induction s as [|a s IH]; intros Hc; simpl; [done|].
  apply not_elem_of_cons in Hc as [Hne Hc].
  destruct (N.eqb_spec a c) as [->|_]; [done|].
  by rewrite IH.
Qed.

Lemma split_head_sep_free (c : char16) (s : jsstring) : c ∉ split_head c s.
Proof.
  induction s as [|a s IH]; simpl; [apply not_elem_of_nil|].
  destruct (N.eqb_spec a c) as [->|Hne]; [apply not_elem_of_nil|].
  apply not_elem_of_cons. split; [congruence|done].
Qed.

Lemma split_head_idem (c : char16) (s : jsstring) :
  split_head c (split_head c s) = split_head c s.
Proof. apply split_head_no_sep, split_head_sep_free. Qed.

(** ** Link discovery *)

Lemma fullUrl_absolute (href : jsstring) :
  startsWith (str "http") href = true → Links.fullUrl href = href.
Proof.
  intros H. unfold Links.fullUrl. rewrite H.
  destruct href as [|a r]; [discriminate H|].
  literals. cbn [startsWith] in H.
  destruct (N.eqb_spec 104 a) as [<-|]; [reflexivity|].
  cbn [andb] in H. discriminate H.
Qed.

(** C8: an href that is already absolute (starts with "http") and has no
    query string is returned unchanged by the normalization of link
    discovery (absolutize, then cut at the first question mark). *)
Theorem cleanUrl_fixed_point (href : jsstring) :
  startsWith (str "http") href = true →
  63%N ∉ href →
  Links.cleanUrl href = href.
Proof.
  intros Habs Hq. unfold Links.cleanUrl.
  rewrite fullUrl_absolute by done.
  by apply split_head_no_sep.
Qed.

Lemma cleanUrl_fixed_point_witness :
  Links.cleanUrl (str "https://www.lazada.vn/products/ao-i1.html")
  = str "https://www.lazada.vn/products/ao-i1.html".
Proof.
  apply cleanUrl_fixed_point; [reflexivity|].
  vm_compute. intros H. repeat (apply elem_of_cons in H as [H|H]; [discriminate H|]).
  by apply not_elem_of_nil in H.
Defined.

Lemma cleanUrl_absolute (href : jsstring) :
  startsWith (str "http") (Links.cleanUrl href) = true.
Proof.
  unfold Links.cleanUrl, Links.fullUrl.
  destruct (startsWith (str "//") href) eqn:E1; [reflexivity|].
  destruct (startsWith (str "/") href) eqn:E2; [reflexivity|].
  destruct (startsWith (str "http") href) eqn:E3; [|reflexivity].
  simpl negb. cbv iota. literals.
  destruct href as [|a [|b [|c [|d r]]]]; cbn [startsWith] in E3;
    rewrite ?andb_false_r in E3; try discriminate E3.
  repeat (apply andb_prop in E3 as [?%N.eqb_eq E3]); subst.
  reflexivity.
Qed.

(** The idempotence proper: normalizing twice is normalizing once. *)
Lemma cleanUrl_idempotent (href : jsstring) :
  Links.cleanUrl (Links.cleanUrl href) = Links.cleanUrl href.
Proof.
  unfold Links.cleanUrl at 1.
  rewrite fullUrl_absolute by apply cleanUrl_absolute.
  apply split_head_no_sep, split_head_sep_free.
Qed.

Lemma links_ok_acc0 : links_ok Links.acc0.
Proof.
  split; simpl; [apply NoDup_nil_2 | intros x Hx; by apply elem_of_nil in Hx | done].
Qed.

Lemma links_ok_visit (a : Links.Acc) (el : Element) :
  links_ok a → links_ok (Links.visit a el).
Proof.
  intros [Hnd Hseen Hclean]. unfold Links.visit.
  destruct (el_href el) as [href|]; [|done].
  destruct (nonempty href && _ && _); [|done].
  destruct (bool_decide (Links.cleanUrl href ∈ Links.seen a)) eqn:Hin; simpl; [done|].
  destruct (includes _ _); [|done].
  apply bool_decide_eq_false in Hin.
  split; simpl.
  - apply NoDup_app. split_and!; [done| |apply NoDup_singleton].
    intros x Hx Hx'. apply list_elem_of_singleton in Hx' as ->. auto.
  - intros x [Hx|Hx]%elem_of_app; [set_solver|].
    apply list_elem_of_singleton in Hx as ->. set_solver.
  - apply Forall_app. split; [done|]. apply Forall_singleton.
    apply split_head_idem.
Qed.

Lemma links_ok_each (doc : CheerioAPI) (sel : Selector) (a : Links.Acc) :
  links_ok a → links_ok (Links.each doc sel a).
Proof.
  unfold Links.each. generalize (doc sel) as els. intros els. revert a.
  induction els as [|el els IH]; intros a Ha; simpl; [done|].
  by apply IH, links_ok_visit.
Qed.

Lemma links_ok_collect (doc : CheerioAPI) (sels : list Selector) (cap : Z) (a : Links.Acc) :
  links_ok a → links_ok (Links.collect doc sels cap a).
Proof.
  revert a. induction sels as [|sel sels IH]; intros a Ha; simpl; [done|].
  destruct (_ >=? _); [by apply links_ok_each|].
  by apply IH, links_ok_each.
Qed.

Lemma slice0_prefix {A} (l : list A) (e : Z) : slice0 l e `prefix_of` l.
Proof. apply prefix_take. Qed.

Lemma slice0_length {A} (l : list A) (e : Z) :
  0 ≤ e → Z.of_nat (length (slice0 l e)) = Z.min e (Z.of_nat (length l)).
Proof.
  intros He. unfold slice0.
  destruct (Z.ltb_spec e 0) as [?|_]; [lia|].
  rewrite length_take. lia.
Qed.

Lemma fmap_fixed {A} (f : A → A) (l : list A) :
  Forall (λ x, f x = x) l → f <$> l = l.
Proof. induction 1 as [|x l Hx _ IH]; [done|]. rewrite fmap_cons. congruence. Qed.

Lemma productLinks_nodup (doc : CheerioAPI) (cap : Z) :
  NoDup (canonical <$> Links.productLinks doc cap).
Proof.
  pose proof (links_ok_collect doc Links.selectors cap _ links_ok_acc0) as [Hnd _ Hclean].
  unfold Links.productLinks.
  set (l := Links.links (Links.collect doc Links.selectors cap Links.acc0)) in *.
  destruct (slice0_prefix l cap) as [k Hk].
  set (p := slice0 l cap) in *. clearbody p. subst l. rewrite Hk in Hnd, Hclean.
  apply NoDup_app in Hnd as (Hnd & _ & _). apply Forall_app in Hclean as [Hclean _].
  by rewrite fmap_fixed.
Qed.

Lemma collect_stops (doc : CheerioAPI) (sel : Selector) (rest : list Selector)
    (cap : Z) (a : Links.Acc) :
  cap ≤ Z.of_nat (length (Links.links (Links.each doc sel a))) →
  Links.collect doc (sel :: rest) cap a = Links.each doc sel a.
Proof.
  intros H. simpl. destruct (Z.geb_spec (Z.of_nat (length (Links.links (Links.each doc sel a)))) cap); [done|lia].
Qed.

Lemma visit_extends (a : Links.Acc) (el : Element) :
  Links.links a `prefix_of` Links.links (Links.visit a el).
Proof.
  unfold Links.visit.
  destruct (el_href el) as [href|]; [|done].
  destruct (nonempty href && _ && _); [|done].
  destruct (negb _ && _); [|done].
  simpl. by apply prefix_app_r.
Qed.

Lemma each_extends (doc : CheerioAPI) (sel : Selector) (a : Links.Acc) :
  Links.links a `prefix_of` Links.links (Links.each doc sel a).
Proof.
  unfold Links.each. generalize (doc sel) as els. intros els. revert a.
  induction els as [|el els IH]; intros a; simpl; [done|].
  etrans; [apply visit_extends|apply IH].
Qed.

Lemma strategies_extend (doc : CheerioAPI) (sels : list Selector) (a : Links.Acc) :
  Links.links a `prefix_of` Links.links (fold_left (fun a sel => Links.each doc sel a) sels a).
Proof.
  revert a. induction sels as [|sel sels IH]; intros a; simpl; [done|].
  etrans; [apply each_extends|apply IH].
Qed.

(** The loop with its [break] against the loop that tries every strategy:
    it collects a prefix of the same links, and all of them unless it has
    reached the cap. *)
Lemma collect_all (doc : CheerioAPI) (sels : list Selector) (cap : Z) (a : Links.Acc) :
  Links.links (Links.collect doc sels cap a)
    `prefix_of` Links.links (fold_left (fun a sel => Links.each doc sel a) sels a)
  ∧ (Links.collect doc sels cap a = fold_left (fun a sel => Links.each doc sel a) sels a
     ∨ cap ≤ Z.of_nat (length (Links.links (Links.collect doc sels cap a)))).
Proof.
  revert a. induction sels as [|sel sels IH]; intros a; simpl; [by split; [|left]|].
  destruct (Z.geb_spec (Z.of_nat (length (Links.links (Links.each doc sel a)))) cap).
  - split; [apply strategies_extend|right; lia].
  - apply IH.
Qed.

Lemma getProductLinks_cases (web : Web) (n : nat) (url : jsstring) (cap : Z) :
  getProductLinks web n url cap = []
  ∨ ∃ doc, content (web n url) = Some doc
           ∧ getProductLinks web n url cap = Links.productLinks doc cap.
Proof.
  unfold getProductLinks, page_content.
  destruct (guard (goto_ok _) _); [|by left]. simpl.
  destruct (outcome _); [|by left]. simpl.
  destruct (guard (scroll_ok _) _); [|by left]. simpl.
  destruct (content (web n url)) as [doc|]; [|by left].
  right. by exists doc.
Qed.

(** C2: for every parsed listing page and every cap, a number of
    products, link discovery returns no two elements with the same
    canonical (query-stripped) URL and at most [cap] elements, on the page
    and through [getProductLinks] for every listing URL; the loop over
    the strategies stops at the first strategy after which the count has
    reached the cap, the later ones being left untried, and goes on to
    the next strategy otherwise; the result is the first [cap] of the
    links found, which are the first [cap] of the links that all the
    strategies together find, so that it has exactly [cap] elements once
    the count has reached the cap. *)
Theorem productLinks_dedup_capped (doc : CheerioAPI) (cap : nat) :
  NoDup (canonical <$> Links.productLinks doc (Z.of_nat cap))
  ∧ (length (Links.productLinks doc (Z.of_nat cap)) ≤ cap)%nat
  ∧ (∀ sel rest a,
       Links.collect doc (sel :: rest) (Z.of_nat cap) a
       = if bool_decide (cap ≤ length (Links.links (Links.each doc sel a)))%nat
         then Links.each doc sel a
         else Links.collect doc rest (Z.of_nat cap) (Links.each doc sel a))
  ∧ Links.productLinks doc (Z.of_nat cap)
    = take cap (Links.links (Links.collect doc Links.selectors (Z.of_nat cap) Links.acc0))
  ∧ Links.productLinks doc (Z.of_nat cap)
    = take cap (Links.links
                  (fold_left (fun a sel => Links.each doc sel a) Links.selectors Links.acc0))
  ∧ ((cap ≤ length (Links.links (Links.collect doc Links.selectors (Z.of_nat cap) Links.acc0)))%nat →
     length (Links.productLinks doc (Z.of_nat cap)) = cap)
  ∧ (∀ web n url,
       NoDup (canonical <$> getProductLinks web n url (Z.of_nat cap))
       ∧ (length (getProductLinks web n url (Z.of_nat cap)) ≤ cap)%nat).
Proof.
  assert (∀ d, Links.productLinks d (Z.of_nat cap)
               = take cap (Links.links (Links.collect d Links.selectors (Z.of_nat cap) Links.acc0)))
    as Htake.
  { intros d. unfold Links.productLinks, slice0.
    destruct (Z.ltb_spec (Z.of_nat cap) 0) as [?|_]; [lia|].
    set (l := Links.links _).
    destruct (Z.min_spec (Z.of_nat cap) (Z.of_nat (length l))) as [[? ->]|[? ->]];
      rewrite Nat2Z.id; [done|].
    rewrite !take_ge; [done|lia..]. }
  assert (∀ d, (length (Links.productLinks d (Z.of_nat cap)) ≤ cap)%nat) as Hlen.
  { intros d. rewrite Htake, length_take. lia. }
  split_and!.
  - apply productLinks_nodup.
  - apply Hlen.
  - intros sel rest a. simpl.
    destruct (Z.geb_spec (Z.of_nat (length (Links.links (Links.each doc sel a)))) (Z.of_nat cap));
      case_bool_decide; first [done|lia].
  - apply Htake.
  - rewrite Htake.
    destruct (collect_all doc Links.selectors (Z.of_nat cap) Links.acc0)
      as [[k Hk] [->|Hfull]]; [done|].
    rewrite Hk. rewrite take_app_le by lia. done.
  - intros Hfull. rewrite Htake, length_take. lia.
  - intros web n url.
    destruct (getProductLinks_cases web n url (Z.of_nat cap)) as [->|(d & _ & ->)].
    + split; [apply NoDup_nil_2|simpl; lia].
    + split; [apply productLinks_nodup|apply Hlen].
Qed.

Lemma productLinks_dedup_capped_witness :
  NoDup (canonical <$> Links.productLinks listing3 2)
  ∧ length (Links.productLinks listing3 2) = 2%nat
  ∧ Links.collect listing3 Links.selectors 2 Links.acc0
    = Links.each listing3 a_href_products Links.acc0.
Proof.
  pose proof (productLinks_dedup_capped listing3 2%nat) as (H1 & _ & H3 & _ & _ & H5 & _).
  split_and!; [exact H1|apply H5; vm_compute; lia|].
  unfold Links.selectors. rewrite (H3 a_href_products _ Links.acc0). reflexivity.
Defined.

(** ** Prices *)


Lemma trimStart_suffix (s : jsstring) : trimStart s `suffix_of` s.
Proof.
  induction s as [|c s IH]; simpl; [done|].
  destruct (is_space c); [by apply suffix_cons_r|done].
Qed.

Lemma Forall_suffix {A} (P : A → Prop) (l1 l2 : list A) :
  l1 `suffix_of` l2 → Forall P l2 → Forall P l1.
Proof. intros [k ->] H. by apply Forall_app in H as [_ ?]. Qed.

Lemma trim_Forall (P : char16 → Prop) (s : jsstring) : Forall P s → Forall P (trim s).
Proof.
  intros H. unfold trim, trimEnd.
  apply Forall_reverse, (Forall_suffix _ _ _ (trimStart_suffix _)), Forall_reverse.
  by apply (Forall_suffix _ _ _ (trimStart_suffix _)).
Qed.

Lemma strip_kept_upto (rp : bool) (n : nat) (s : jsstring) :
  (length s ≤ n)%nat → Forall (λ c, kept c = true) (strip rp s).
Proof.
  revert s. induction n as [|n IH]; intros [|c s] Hn; simpl in Hn; try lia; [done..|].
  cbn [strip].
  assert (Forall (λ c, kept c = true)
            (if (c =? dong)%N || is_sep c then strip rp s else c :: strip rp s)) as Hone.
  { destruct ((c =? dong)%N || is_sep c) eqn:Hc; [apply IH; lia|].
    constructor; [unfold kept; by rewrite Hc|apply IH; lia]. }
  destruct s as [|c2 s]; [done|].
  destruct (rp && (c =? 82)%N && (c2 =? 112)%N); [|done].
  apply IH. simpl in Hn. lia.
Qed.

Lemma normalize_kept (rp : bool) (s : jsstring) :
  Forall (λ c, kept c = true) (normalize rp s).
Proof. apply trim_Forall, (strip_kept_upto rp (length s)). lia. Qed.

Lemma span_spec (p : char16 → bool) (s a b : jsstring) :
  span p s = (a, b) → Forall (λ c, p c = true) a ∧ s = a ++ b.
Proof.
  revert a b. induction s as [|c s IH]; intros a b; simpl.
  - intros [= <- <-]. by split.
  - destruct (p c) eqn:Hc.
    + destruct (span p s) as [a' b'] eqn:Hs. intros [= <- <-].
      destruct (IH a' b' eq_refl) as [Ha ->]. split; [by constructor|done].
    + intros [= <- <-]. by split.
Qed.

Lemma match_here_shape (s m : jsstring) :
  match_here s = Some m →
  ∃ amount blank,
    m = amount ++ blank ++ [dong]
    ∧ amount ≠ []
    ∧ Forall (λ c, is_amount c = true) amount
    ∧ Forall (λ c, is_space c = true) blank.
Proof.
  unfold match_here.
  destruct (span is_amount s) as [amount r1] eqn:H1.
  destruct (span is_space r1) as [blank r2] eqn:H2.
  apply span_spec in H1 as [Ha _]. apply span_spec in H2 as [Hb _].
  destruct amount as [|a amount]; [done|].
  destruct r2 as [|c r2]; [done|].
  destruct (c =? dong)%N; [|done].
  intros [= <-]. by exists (a :: amount), blank.
Qed.

Lemma scan_matches (k : nat) (s m : jsstring) :
  m ∈ scan k s → ∃ s', match_here s' = Some m.
Proof.
  revert k. induction s as [|c s IH]; intros k; simpl.
  - by intros ?%elem_of_nil.
  - destruct k as [|k]; [|by apply IH].
    destruct (match_here (c :: s)) as [m0|] eqn:Hm; [|by apply IH].
    intros [->|Hin]%elem_of_cons; [by eexists|by eapply IH].
Qed.



(** When the price container gives nothing, the prices are those of the
    pattern scan. *)
Lemma getPrices_fallback (doc : CheerioAPI) :
  normalize true (first_text doc origin_block_span) = [] →
  normalize true (first_text doc pdp_price_type_normal) = [] →
  getPrices doc =
    match priceMatches (first_text doc class_price) with
    | [] => {| regularPrice := []; salePrice := [] |}
    | [m0] => {| regularPrice := []; salePrice := normalize false m0 |}
    | m0 :: m1 :: _ =>
      {| regularPrice := normalize false m1; salePrice := normalize false m0 |}
    end.
Proof.
  intros H1 H2. unfold getPrices. rewrite H1, H2.
  destruct (nonempty (first_text doc origin_block_span)),
           (nonempty (first_text doc pdp_price_type_normal)); simpl;
    by destruct (priceMatches _) as [|m0 [|m1 more]].
Qed.















(** ** The JSON-LD block *)

Section JsonLd.

Variable JSON_parse : jsstring → option json.

Lemma getJsonLdData_block (doc : CheerioAPI) :
  getJsonLdData JSON_parse doc =
    match ld_block JSON_parse doc with
    | Some jsonData => finish (body (Some jsonData) result0)
    | None => result0
    end.
Proof.
  unfold getJsonLdData, ld_block.
  destruct (first_html doc ld_json_script) as [script|]; [|done].
  by destruct (nonempty script).
Qed.

Lemma keeps_seq {A} (f : JsonLdData → A) (s1 s2 : Stmt) :
  keeps f s1 → keeps f s2 → keeps f (seq s1 s2).
Proof.
  intros H1 H2 r. unfold seq. specialize (H1 r).
  destruct (s1 r) as [r'|r']; simpl in *; [|done].
  by rewrite H2.
Qed.

Lemma keeps_copy_field {A} (f : JsonLdData → A) jsonData key set :
  (∀ v r, f (set v r) = f r) → keeps f (copy_field jsonData key set).
Proof.
  intros Hset r. unfold copy_field.
  destruct (prop jsonData key) as [[v|]|]; [|done..].
  destruct (truthy (Some v)); simpl; [apply Hset|done].
Qed.

Lemma keeps_image {A} (f : JsonLdData → A) jsonData :
  (∀ s r, f (set_imageUrl s r) = f r) → keeps f (image_stmt jsonData).
Proof.
  intros Hset r. unfold image_stmt.
  destruct (prop jsonData (str "image")) as [image|]; [|done].
  destruct (truthy image); [|done].
  repeat case_match; simpl; try done; apply Hset.
Qed.

Lemma keeps_stock {A} (f : JsonLdData → A) jsonData :
  (∀ s r, f (set_stock s r) = f r) → keeps f (stock_stmt jsonData).
Proof.
  intros Hset r. unfold stock_stmt.
  repeat case_match; simpl; try done; apply Hset.
Qed.

Lemma keeps_price {A} (f : JsonLdData → A) jsonData :
  (∀ s r, f (set_priceFromJson s r) = f r) → keeps f (price_stmt jsonData).
Proof.
  intros Hset r. unfold price_stmt.
  repeat case_match; simpl; try done; apply Hset.
Qed.

(** The name the block supplies: the value of its [name] property when
    that is truthy. *)
Lemma name_of_body (jsonData : json) :
  name (finish (body (Some jsonData) result0)) =
    match prop (Some jsonData) (str "name") with
    | Ok (Some v) => if truthy (Some v) then v else JStr []
    | _ => JStr []
    end.
Proof.
  unfold body.
  assert (keeps name
    (seq (copy_field (Some jsonData) (str "description") set_description)
    (seq (copy_field (Some jsonData) (str "sku") set_productId)
    (seq (image_stmt (Some jsonData))
    (seq (stock_stmt (Some jsonData)) (price_stmt (Some jsonData))))))) as Hk.
  { repeat apply keeps_seq;
      first [ by apply keeps_copy_field | by apply keeps_image
            | by apply keeps_stock | by apply keeps_price ]. }
  unfold seq at 1. unfold copy_field at 1.
  destruct (prop (Some jsonData) (str "name")) as [[v|]|]; [| |done].
  - destruct (truthy (Some v)); by rewrite Hk.
  - by rewrite Hk.
Qed.

End JsonLd.

(** ** The title *)

Lemma getTitle_first (doc : CheerioAPI) :
  getTitle doc = default [] (List.find acceptable (title_candidates doc)).
Proof.
  unfold getTitle, title_candidates, title_selectors. simpl.
  by repeat destruct (acceptable _).
Qed.

Lemma acceptable_nonempty (t : jsstring) : acceptable t = true → nonempty t = true.
Proof. unfold acceptable. by intros [? _]%andb_prop. Qed.

(** C4: the final title is the first of the trimmed texts of the title
    selectors, in the order dedicated title, generic heading, badge title,
    that is non-empty and longer than ten characters; when there is none
    and the JSON-LD block supplies a name, it is that name; when there is
    none and the block supplies no name, it is empty. *)
Theorem final_title (JSON_parse : jsstring → option json) (doc : CheerioAPI) :
  (∀ t, List.find acceptable (title_candidates doc) = Some t →
        finalTitle JSON_parse doc = JStr t)
  ∧ (∀ v, List.find acceptable (title_candidates doc) = None →
          supplied_name (ld_block JSON_parse doc) = Some v →
          finalTitle JSON_parse doc = v)
  ∧ (List.find acceptable (title_candidates doc) = None →
     supplied_name (ld_block JSON_parse doc) = None →
     finalTitle JSON_parse doc = JStr []).
Proof.
  unfold finalTitle. rewrite getTitle_first, getJsonLdData_block.
  split_and!.
  - intros t Ht. rewrite Ht. simpl.
    apply find_some in Ht as [_ Ht]. by rewrite (acceptable_nonempty _ Ht).
  - intros v -> Hv. simpl. unfold supplied_name in Hv.
    destruct (ld_block JSON_parse doc) as [[|b|n|s|l|fields|x]|]; try done.
    rewrite name_of_body. cbn [prop].
    destruct (lookup_field (str "name") fields) as [x|]; [|done].
    destruct (truthy (Some x)); congruence.
  - intros -> Hv. simpl. unfold supplied_name in Hv.
    destruct (ld_block JSON_parse doc) as [[|b|n|s|l|fields|x]|]; try done.
    rewrite name_of_body. cbn [prop].
    destruct (lookup_field (str "name") fields) as [x|]; [|done].
    by destruct (truthy (Some x)).
Qed.

Lemma final_title_witness :
  finalTitle (parse_as foo_block) (product_page (str "  Short ") [] []) = JStr (str "Foo Product")
  ∧ finalTitle (parse_as foo_block) (product_page (str "Short") (str " A heading long enough ") [])
    = JStr (str "A heading long enough")
  ∧ finalTitle (parse_as (JObj [])) (product_page (str "Short") [] []) = JStr [].
Proof.
  split_and!.
  - exact (proj1 (proj2 (final_title (parse_as foo_block) (product_page (str "  Short ") [] [])))
             (JStr (str "Foo Product")) eq_refl eq_refl).
  - exact (proj1 (final_title (parse_as foo_block)
                    (product_page (str "Short") (str " A heading long enough ") []))
             (str "A heading long enough") eq_refl).
  - exact (proj2 (proj2 (final_title (parse_as (JObj [])) (product_page (str "Short") [] [])))
             eq_refl eq_refl).
Defined.

(** ** Stock *)

Lemma passes_seq (s1 s2 : Stmt) (r : JsonLdData) :
  passes s1 → ∃ r', seq s1 s2 r = s2 r' ∧ stock r' = stock r.
Proof.
  intros H. destruct (H r) as (r' & Hr & Hs). exists r'. unfold seq. by rewrite Hr.
Qed.

Lemma passes_copy_field (fields : list (jsstring * json)) key set :
  (∀ v r, stock (set v r) = stock r) →
  passes (copy_field (Some (JObj fields)) key set).
Proof.
  intros Hset r. unfold copy_field. simpl prop.
  destruct (lookup_field key fields) as [v|]; [|by eexists].
  destruct (truthy (Some v)); by eexists.
Qed.

Lemma passes_image (fields : list (jsstring * json)) :
  image_harmless (lookup_field (str "image") fields) →
  passes (image_stmt (Some (JObj fields))).
Proof.
  intros Himg r. unfold image_stmt. simpl prop.
  destruct (lookup_field (str "image") fields) as [image|]; [|by eexists].
  destruct (truthy (Some image)); [|by eexists].
  destruct image as [|b|n|s|[|x l]|fs|y]; try (simpl; by eexists).
  - destruct (truthy (Some (JStr s))); [|by eexists].
    cbn [startsWith_method]. destruct (startsWith (str "http") s); by eexists.
  - destruct (truthy (Some x)) eqn:Hx; [|by eexists].
    destruct (Himg Hx) as [s ->].
    cbn [startsWith_method]. destruct (startsWith (str "http") s); by eexists.
Qed.

(** With a harmless image entry and a string for the availability, the
    stock is "1" exactly when the string contains "InStock" or
    "LimitedAvailability". *)
Lemma stock_of_string_availability (fields ofields : list (jsstring * json)) (s : jsstring) :
  image_harmless (lookup_field (str "image") fields) →
  lookup_field (str "offers") fields = Some (JObj ofields) →
  lookup_field (str "availability") ofields = Some (JStr s) →
  stock (finish (body (Some (JObj fields)) result0))
  = if includes (str "InStock") s || includes (str "LimitedAvailability") s
    then str "1" else str "0".
Proof.
  intros Himg Ho Ha. unfold body.
  destruct (passes_seq _ (seq (copy_field (Some (JObj fields)) (str "description") set_description)
    (seq (copy_field (Some (JObj fields)) (str "sku") set_productId)
    (seq (image_stmt (Some (JObj fields)))
    (seq (stock_stmt (Some (JObj fields))) (price_stmt (Some (JObj fields)))))))
    result0 (passes_copy_field fields (str "name") set_name (λ _ _, eq_refl)))
    as (r1 & -> & H1).
  destruct (passes_seq _ (seq (copy_field (Some (JObj fields)) (str "sku") set_productId)
    (seq (image_stmt (Some (JObj fields)))
    (seq (stock_stmt (Some (JObj fields))) (price_stmt (Some (JObj fields))))))
    r1 (passes_copy_field fields (str "description") set_description (λ _ _, eq_refl)))
    as (r2 & -> & H2).
  destruct (passes_seq _ (seq (image_stmt (Some (JObj fields)))
    (seq (stock_stmt (Some (JObj fields))) (price_stmt (Some (JObj fields)))))
    r2 (passes_copy_field fields (str "sku") set_productId (λ _ _, eq_refl)))
    as (r3 & -> & H3).
  destruct (passes_seq _ (seq (stock_stmt (Some (JObj fields))) (price_stmt (Some (JObj fields))))
    r3 (passes_image fields Himg)) as (r4 & -> & H4).
  assert (stock r4 = str "0") as H0 by (rewrite H4, H3, H2, H1; reflexivity).
  unfold seq, stock_stmt. simpl prop. rewrite Ho. simpl prop. rewrite Ha.
  cbn [truthy]. destruct s as [|c s].
  { simpl. rewrite (keeps_price stock _ (λ _ _, eq_refl)). exact H0. }
  cbn [nonempty includes_method].
  destruct (includes (str "InStock") (c :: s)); simpl orb; cbv iota.
  { by rewrite (keeps_price stock _ (λ _ _, eq_refl)). }
  rewrite (keeps_price stock _ (λ _ _, eq_refl)). simpl.
  by destruct (includes _ _).
Qed.

(** With an image array whose first element is truthy and not a string,
    the stock is "0" whatever the offers say. *)
Lemma stock_after_image_error (fields : list (jsstring * json)) (x : json) (l : list json) :
  lookup_field (str "image") fields = Some (JArr (x :: l)) →
  truthy (Some x) = true → (∀ s, x ≠ JStr s) →
  stock (finish (body (Some (JObj fields)) result0)) = str "0".
Proof.
  intros Himg Hx Hstr. unfold body.
  destruct (passes_seq _ (seq (copy_field (Some (JObj fields)) (str "description") set_description)
    (seq (copy_field (Some (JObj fields)) (str "sku") set_productId)
    (seq (image_stmt (Some (JObj fields)))
    (seq (stock_stmt (Some (JObj fields))) (price_stmt (Some (JObj fields)))))))
    result0 (passes_copy_field fields (str "name") set_name (λ _ _, eq_refl)))
    as (r1 & -> & H1).
  destruct (passes_seq _ (seq (copy_field (Some (JObj fields)) (str "sku") set_productId)
    (seq (image_stmt (Some (JObj fields)))
    (seq (stock_stmt (Some (JObj fields))) (price_stmt (Some (JObj fields))))))
    r1 (passes_copy_field fields (str "description") set_description (λ _ _, eq_refl)))
    as (r2 & -> & H2).
  destruct (passes_seq _ (seq (image_stmt (Some (JObj fields)))
    (seq (stock_stmt (Some (JObj fields))) (price_stmt (Some (JObj fields)))))
    r2 (passes_copy_field fields (str "sku") set_productId (λ _ _, eq_refl)))
    as (r3 & -> & H3).
  unfold seq at 1, image_stmt. simpl prop. rewrite Himg, Hx.
  change (truthy (Some (JArr (x :: l)))) with true. cbv iota.
  destruct x as [|b|n|s|xs|fs|y]; simpl; try (by rewrite H3, H2, H1).
  by destruct (Hstr s).
Qed.

Lemma stock_default (JSON_parse : jsstring → option json) (doc : CheerioAPI) :
  ld_block JSON_parse doc = None → stock (getJsonLdData JSON_parse doc) = str "0".
Proof. intros H. by rewrite getJsonLdData_block, H. Qed.

(** C7 on the block [image_objects_block]: the availability is
    "https://schema.org/InStock", yet the stock is "0" and the price of
    the block is lost, because the TypeError raised on the image entry
    ends the [try] block before line 353. With the image given as a
    string the same offers give "1". *)
Theorem stock_lost_after_image_error :
  getJsonLdData (parse_as image_objects_block) (product_page [] [] []) = result0
  ∧ stock (getJsonLdData (parse_as image_objects_block) (product_page [] [] [])) = str "0"
  ∧ stock (getJsonLdData (parse_as image_string_block) (product_page [] [] [])) = str "1".
Proof. split_and!; vm_compute; reflexivity. Qed.

(** ** The product record *)

Section Product.

Variable JSON_parse : jsstring → option json.

Lemma crawlProduct_Some (web : Web) (n : nat) (url : jsstring) (p : LazadaProduct) :
  crawlProduct JSON_parse web n url = Some p →
  ∃ doc, content (web n url) = Some doc
         ∧ extract JSON_parse url (web n url) doc = Ok p.
Proof.
  unfold crawlProduct, visitProduct, page_content.
  destruct (guard (goto_ok _) _); [|done]. simpl.
  destruct (guard (ready_ok _) _); [|done]. simpl.
  destruct (outcome _); [|done]. simpl.
  destruct (if hasCaptcha _ then _ else _); [|done]. simpl.
  destruct (guard (scroll_ok _) _); [|done]. simpl.
  destruct (content (web n url)) as [doc|]; [|done]. simpl.
  destruct (extract _ _ _ _) as [p'|] eqn:He; [|done].
  intros [= <-]. by exists doc.
Qed.

Lemma extract_Ok (url : jsstring) (v : Visit) (doc : CheerioAPI) (p : LazadaProduct) :
  extract JSON_parse url v doc = Ok p →
  doc root ≠ []
  ∧ pdp_url p = url
  ∧ JStr (pdp_title_value p) = finalTitle JSON_parse doc
  ∧ price_rp p = finalRegularPrice JSON_parse doc
  ∧ price_sp p = salePrice (getPrices doc)
  ∧ vosa p = stock (getJsonLdData JSON_parse doc)
  ∧ pdp_image_url p = imageUrl (getJsonLdData JSON_parse doc)
  ∧ pdp_image_count p = (if nonempty (pdp_image_url p) then str "1" else str "0")
  ∧ category p = None.
Proof.
  unfold extract.
  destruct (doc root) as [|e els] eqn:Hroot; [done|]. simpl.
  destruct (finalTitle JSON_parse doc); try done.
  intros [= <-]. simpl. by split_and!.
Qed.

End Product.

(** C9: in a product record the image count is "1" exactly when the image
    URL is not empty, and "0" exactly when it is empty. *)
Theorem image_count_matches_url (JSON_parse : jsstring → option json)
    (web : Web) (n : nat) (url : jsstring) (p : LazadaProduct) :
  crawlProduct JSON_parse web n url = Some p →
  (pdp_image_count p = str "1" ↔ pdp_image_url p ≠ [])
  ∧ (pdp_image_count p = str "0" ↔ pdp_image_url p = []).
Proof.
  intros (doc & _ & He)%crawlProduct_Some.
  apply extract_Ok in He as (_ & _ & _ & _ & _ & _ & _ & -> & _).
  destruct (pdp_image_url p); simpl; split; split; done.
Qed.

Lemma image_count_matches_url_witness :
  ∃ p, crawlProduct (parse_as image_string_block) (always (smooth_visit (product_page [] [] [])))
         0 sample_url = Some p
       ∧ pdp_image_url p = str "https://img/1.jpg"
       ∧ (pdp_image_count p = str "1" ↔ pdp_image_url p ≠ []).
Proof.
  eexists. split; [vm_compute; reflexivity|]. split; [reflexivity|].
  refine (proj1 (image_count_matches_url (parse_as image_string_block)
            (always (smooth_visit (product_page [] [] []))) 0 sample_url _ _)).
  vm_compute. reflexivity.
Defined.

Lemma getPrices_nothing (doc : CheerioAPI) :
  normalize true (first_text doc origin_block_span) = [] →
  normalize true (first_text doc pdp_price_type_normal) = [] →
  priceMatches (first_text doc class_price) = [] →
  getPrices doc = {| regularPrice := []; salePrice := [] |}.
Proof.
  intros H1 H2 H3. by rewrite getPrices_fallback, H3.
Qed.

(** C10: the sale price of a record is the sale price found in the page
    and nothing else, whatever the JSON-LD block; the regular price is the
    one found in the page when that is not empty and the price of the
    block otherwise. So when neither the price container nor the pattern
    scan gives anything, the sale price is empty and the regular price is
    the price of the block. *)
Theorem sale_price_has_no_fallback (JSON_parse : jsstring → option json)
    (web : Web) (n : nat) (url : jsstring) (p : LazadaProduct) :
  crawlProduct JSON_parse web n url = Some p →
  ∃ doc, content (web n url) = Some doc
    ∧ price_sp p = salePrice (getPrices doc)
    ∧ price_rp p = (if nonempty (regularPrice (getPrices doc))
                    then regularPrice (getPrices doc)
                    else priceFromJson (getJsonLdData JSON_parse doc))
    ∧ (normalize true (first_text doc origin_block_span) = [] →
       normalize true (first_text doc pdp_price_type_normal) = [] →
       priceMatches (first_text doc class_price) = [] →
       price_sp p = [] ∧ price_rp p = priceFromJson (getJsonLdData JSON_parse doc)).
Proof.
  intros (doc & Hdoc & He)%crawlProduct_Some. exists doc.
  apply extract_Ok in He as (_ & _ & _ & Hrp & Hsp & _).
  split_and!; try done.
  intros H1 H2 H3. rewrite Hrp, Hsp. unfold finalRegularPrice.
  by rewrite getPrices_nothing.
Qed.

Lemma sale_price_has_no_fallback_witness :
  ∃ p, crawlProduct (parse_as image_string_block)
         (always (smooth_visit (product_page [] [] (str "out of stock")))) 0 sample_url = Some p
       ∧ price_sp p = [] ∧ price_rp p = str "271043".
Proof.
  destruct (crawlProduct (parse_as image_string_block)
              (always (smooth_visit (product_page [] [] (str "out of stock")))) 0 sample_url)
    as [p|] eqn:Hp; [|vm_compute in Hp; discriminate Hp].
  exists p. split; [reflexivity|].
  destruct (sale_price_has_no_fallback _ _ _ _ _ Hp) as (doc & Hdoc & _ & _ & H).
  injection Hdoc as <-.
  destruct H as [-> ->]; [reflexivity..|]. split; [reflexivity|]. vm_compute. reflexivity.
Defined.

(** ** The CAPTCHA guard *)

Lemma clock_step (pl : nat → Poll) (i : nat) : clock pl i + 2000 ≤ clock pl (S i).
Proof. simpl. lia. Qed.

Lemma clock_monotone (pl : nat → Poll) (i k : nat) :
  (i ≤ k)%nat → clock pl i ≤ clock pl k.
Proof.
  induction 1 as [|k _ IH]; [lia|]. pose proof (clock_step pl k). lia.
Qed.

Lemma clock_lower (pl : nat → Poll) (i : nat) : 2000 * Z.of_nat i ≤ clock pl i.
Proof. induction i as [|i IH]; [simpl; lia|]. pose proof (clock_step pl i). lia. Qed.

Lemma waitLoop_clears (pl : nat → Poll) (i : nat) (elapsed : Z) (k : nat) :
  clears_at pl k → clock pl k < maxWaitTime → (i ≤ k)%nat → elapsed = clock pl i →
  waitLoop pl i elapsed = {| outcome := Ok tt; rounds := S k; waited := clock pl (S k) |}.
Proof.
  intros [Hk Hbefore] Hdead. funelim (waitLoop pl i elapsed); intros Hi ->.
  - destruct (decide (i = k)) as [->|Hne].
    + by rewrite Hk.
    + rewrite (Hbefore i) by lia. apply H; [done..|lia|reflexivity].
  - pose proof (clock_monotone polls0 i k Hi). lia.
Qed.

Lemma waitLoop_times_out (polls : nat → Poll) (i : nat) (elapsed : Z) :
  captcha_stays polls → elapsed = clock polls i →
  outcome (waitLoop polls i elapsed) = Throw CaptchaTimeout
  ∧ maxWaitTime ≤ waited (waitLoop polls i elapsed).
Proof.
  intros Hstay. funelim (waitLoop polls i elapsed); intros ->.
  - pose proof (Hstay i l) as Hp. rewrite Hp. by apply H.
  - simpl. split; [done|lia].
Qed.

Lemma crawlAll_cons (JSON_parse : jsstring → option json) (web : Web)
    (cat : option jsstring) (url : jsstring) (rest : list jsstring) (c : Crawler) :
  crawlAll JSON_parse web cat (url :: rest) c
  = crawlAll JSON_parse web cat rest (crawlOne JSON_parse web cat c url).
Proof. reflexivity. Qed.

Lemma crawlOne_failed (JSON_parse : jsstring → option json) (web : Web)
    (cat : option jsstring) (url : jsstring) (c : Crawler) :
  crawlProduct JSON_parse web (visits c) url = None →
  crawlOne JSON_parse web cat c url
  = {| results := results c; failedUrls := failedUrls c ++ [url]; visits := S (visits c) |}.
Proof. intros H. unfold crawlOne. by rewrite H. Qed.

Lemma captcha_timeout_fails (JSON_parse : jsstring → option json) (web : Web)
    (n : nat) (url : jsstring) :
  hasCaptcha (web n url) = true → captcha_stays (polls (web n url)) →
  crawlProduct JSON_parse web n url = None.
Proof.
  intros Hc Hstay. unfold crawlProduct, visitProduct, ensure, handleCaptcha.
  rewrite Hc. destruct (waitLoop_times_out _ 0 0 Hstay eq_refl) as [-> _].
  destruct (guard (goto_ok _) _); [|done]. simpl.
  by destruct (guard (ready_ok _) _).
Qed.

Lemma clock_cleared_late (i : nat) : clock cleared_late i = 2900 * Z.of_nat i.
Proof.
  induction i as [|i IH]; [reflexivity|].
  cbn [clock cleared_late late]. change (Z.of_N 900) with 900. lia.
Qed.

Lemma stays_of_detected_through (pl : nat → Poll) (L : Z) :
  (∀ i, Z.of_N (late (pl i)) ≤ L) →
  detected_through pl (maxWaitTime + 2000 + L) → captcha_stays pl.
Proof.
  intros Hlate Hdet i Hi. apply Hdet. cbn [clock]. specialize (Hlate i). lia.
Qed.

(** C3 as stated fails: on a page whose CAPTCHA is there at the first
    check and at every check made during the first 60.5 seconds of the
    wait, longer than the deadline, the round that starts after 58
    seconds ends after 60.9 seconds on a negative check: the guard
    returns normally after its 21st round and the product is crawled. *)
Lemma captcha_cleared_after_deadline :
  maxWaitTime < 60500
  ∧ hasCaptcha (late_visit (product_page [] [] [])) = true
  ∧ detected_through cleared_late 60500
  ∧ handleCaptcha cleared_late = {| outcome := Ok tt; rounds := 21; waited := 60900 |}
  ∧ ensure (late_visit (product_page [] [] []))
    = {| outcome := Ok tt; rounds := 21; waited := 60900 |}
  ∧ is_Some (crawlProduct (parse_as foo_block) (always (late_visit (product_page [] [] [])))
               0 sample_url).
Proof.
  assert (handleCaptcha cleared_late = {| outcome := Ok tt; rounds := 21; waited := 60900 |})
    as Hwait.
  { unfold handleCaptcha. rewrite (waitLoop_clears cleared_late 0 0 20).
    - by rewrite clock_cleared_late.
    - split; [reflexivity|]. intros j Hj. cbn [cleared_late present].
      apply Z.leb_le. lia.
    - rewrite clock_cleared_late. unfold maxWaitTime. lia.
    - lia.
    - reflexivity. }
  split_and!.
  - unfold maxWaitTime. lia.
  - reflexivity.
  - intros i Hi. rewrite clock_cleared_late in Hi. cbn [cleared_late present].
    apply Z.leb_le. lia.
  - exact Hwait.
  - unfold ensure. cbn [hasCaptcha late_visit polls]. exact Hwait.
  - unfold crawlProduct, visitProduct, always, ensure.
    cbn [hasCaptcha late_visit polls]. rewrite Hwait. vm_compute. by eexists.
Qed.

(** C3, amended: when the first detection is negative the guard returns
    at once, without a single round of the wait loop, and the product
    crawl does not depend on what the rounds would have been; when the
    CAPTCHA is still there at the end of every round that starts before
    the 60 second deadline, the guard throws the timeout error, and it
    does so in particular when the check finds the CAPTCHA for the
    deadline and the duration of one more round (two seconds and what the
    rounds take beyond that); the product crawl then yields no product,
    so that the session records the URL as failed and goes on with the
    remaining targets. *)
Theorem captcha_guard (JSON_parse : jsstring → option json) :
  (∀ v, hasCaptcha v = false →
        ensure v = {| outcome := Ok tt; rounds := 0; waited := 0 |})
  ∧ (∀ url v pl rl, hasCaptcha v = false →
        visitProduct JSON_parse url (with_captcha_rounds v pl rl)
        = visitProduct JSON_parse url v)
  ∧ (∀ pl, captcha_stays pl →
           outcome (handleCaptcha pl) = Throw CaptchaTimeout
           ∧ maxWaitTime ≤ waited (handleCaptcha pl))
  ∧ (∀ pl L, (∀ i, Z.of_N (late (pl i)) ≤ L) →
             detected_through pl (maxWaitTime + 2000 + L) →
             outcome (handleCaptcha pl) = Throw CaptchaTimeout)
  ∧ (∀ web cat url rest c,
       hasCaptcha (web (visits c) url) = true →
       captcha_stays (polls (web (visits c) url)) →
       crawlProduct JSON_parse web (visits c) url = None
       ∧ crawlAll JSON_parse web cat (url :: rest) c
         = crawlAll JSON_parse web cat rest
             {| results := results c; failedUrls := failedUrls c ++ [url];
                visits := S (visits c) |}).
Proof.
  split_and!.
  - intros v Hv. unfold ensure. by rewrite Hv.
  - intros url v pl rl Hv. unfold visitProduct, ensure, page_content, extract. simpl.
    by rewrite Hv.
  - intros pl Hstay. by apply waitLoop_times_out.
  - intros pl L Hlate Hdet.
    apply waitLoop_times_out; [by apply (stays_of_detected_through pl L)|reflexivity].
  - intros web cat url rest c Hc Hstay.
    pose proof (captcha_timeout_fails JSON_parse web _ url Hc Hstay) as Hnone.
    split; [done|]. by rewrite crawlAll_cons, crawlOne_failed.
Qed.

Lemma stuck_visit_stays : captcha_stays (polls stuck_visit).
Proof. intros i _. reflexivity. Qed.

Lemma captcha_guard_witness :
  ensure (smooth_visit (product_page [] [] [])) = {| outcome := Ok tt; rounds := 0; waited := 0 |}
  ∧ outcome (handleCaptcha (polls stuck_visit)) = Throw CaptchaTimeout
  ∧ failedUrls (crawlAll (parse_as foo_block) (always stuck_visit) None
                  [sample_url; sample_url] new_crawler)
    = [sample_url; sample_url].
Proof.
  destruct (captcha_guard (parse_as foo_block)) as (H1 & _ & _ & H2 & H3).
  split_and!.
  - apply H1. reflexivity.
  - apply (H2 (polls stuck_visit) 500).
    + intros i. cbn [stuck_visit polls late]. change (Z.of_N 500) with 500. lia.
    + intros i _. reflexivity.
  - rewrite (proj2 (H3 (always stuck_visit) None sample_url [sample_url] new_crawler
                       eq_refl stuck_visit_stays)).
    rewrite (proj2 (H3 (always stuck_visit) None sample_url [] _ eq_refl stuck_visit_stays)).
    reflexivity.
Defined.

(** ** The batch *)

Section Batch.

Variable JSON_parse : jsstring → option json.
Variable web : Web.

(** One target, one entry: a product at the end of [results], or the URL
    at the end of [failedUrls]. *)
Lemma crawlOne_appends (cat : option jsstring) (c : Crawler) (url : jsstring) :
  ((∃ p, results (crawlOne JSON_parse web cat c url) = results c ++ [p]
         ∧ pdp_url p = url)
     ∧ failedUrls (crawlOne JSON_parse web cat c url) = failedUrls c
   ∨ results (crawlOne JSON_parse web cat c url) = results c
     ∧ failedUrls (crawlOne JSON_parse web cat c url) = failedUrls c ++ [url])
  ∧ visits (crawlOne JSON_parse web cat c url) = S (visits c).
Proof.
  unfold crawlOne.
  destruct (crawlProduct JSON_parse web (visits c) url) as [p|] eqn:Hp; simpl.
  - split; [|done]. left. split; [|done]. eexists. split; [done|].
    apply crawlProduct_Some in Hp as (doc & _ & He).
    apply extract_Ok in He as (_ & Hurl & _). by destruct cat.
  - split; [|done]. by right.
Qed.

Lemma crawlOne_size (cat : option jsstring) (c : Crawler) (url : jsstring) :
  batch_size (crawlOne JSON_parse web cat c url) = S (batch_size c).
Proof.
  unfold batch_size.
  destruct (crawlOne_appends cat c url) as [[[(p & -> & _) ->]|[-> ->]] _];
    rewrite ?length_app; simpl; lia.
Qed.

Lemma crawlOne_prefix (cat : option jsstring) (c : Crawler) (url : jsstring) :
  results c `prefix_of` results (crawlOne JSON_parse web cat c url)
  ∧ failedUrls c `prefix_of` failedUrls (crawlOne JSON_parse web cat c url).
Proof.
  destruct (crawlOne_appends cat c url) as [[[(p & -> & _) ->]|[-> ->]] _];
    split; try done; by apply prefix_app_r.
Qed.

Lemma crawlAll_size (cat : option jsstring) (urls : list jsstring) (c : Crawler) :
  batch_size (crawlAll JSON_parse web cat urls c) = (batch_size c + length urls)%nat.
Proof.
  revert c. induction urls as [|url urls IH]; intros c.
  - simpl. lia.
  - rewrite crawlAll_cons, IH, crawlOne_size. simpl. lia.
Qed.

Lemma crawlAll_prefix (cat : option jsstring) (urls : list jsstring) (c : Crawler) :
  results c `prefix_of` results (crawlAll JSON_parse web cat urls c)
  ∧ failedUrls c `prefix_of` failedUrls (crawlAll JSON_parse web cat urls c).
Proof.
  revert c. induction urls as [|url urls IH]; intros c; [done|].
  rewrite crawlAll_cons.
  destruct (crawlOne_prefix cat c url) as [H1 H2], (IH (crawlOne JSON_parse web cat c url)) as [H3 H4].
  split; by etrans.
Qed.

Lemma crawlCategory_size (c : Crawler) (category : Category) :
  batch_size (crawlCategory JSON_parse web c category)
  = (batch_size c + length (discovered web category c))%nat.
Proof.
  unfold crawlCategory.
  destruct (Nat.eqb_spec (length (discovered web category c)) 0) as [->|_].
  - unfold batch_size. simpl. lia.
  - by rewrite crawlAll_size.
Qed.

Lemma crawlCategory_prefix (c : Crawler) (category : Category) :
  results c `prefix_of` results (crawlCategory JSON_parse web c category)
  ∧ failedUrls c `prefix_of` failedUrls (crawlCategory JSON_parse web c category).
Proof.
  unfold crawlCategory. destruct (_ =? _)%nat; [done|].
  apply (crawlAll_prefix _ _
    {| results := results c; failedUrls := failedUrls c; visits := S (visits c) |}).
Qed.

Lemma categories_size (categories : list Category) (c : Crawler) :
  batch_size (fold_left (crawlCategory JSON_parse web) categories c)
  = (batch_size c + length (attempted JSON_parse web categories c))%nat.
Proof.
  revert c. induction categories as [|category rest IH]; intros c; simpl.
  - lia.
  - rewrite IH, crawlCategory_size, length_app. lia.
Qed.

Lemma categories_prefix (categories : list Category) (c : Crawler) :
  results c `prefix_of` results (fold_left (crawlCategory JSON_parse web) categories c)
  ∧ failedUrls c `prefix_of` failedUrls (fold_left (crawlCategory JSON_parse web) categories c).
Proof.
  revert c. induction categories as [|category rest IH]; intros c; simpl; [done|].
  destruct (crawlCategory_prefix c category) as [H1 H2],
    (IH (crawlCategory JSON_parse web c category)) as [H3 H4].
  split; by etrans.
Qed.

End Batch.

Lemma session_final (d : Driver) (loop : Crawler → Crawler) (c : Crawler) :
  page_ready d = true → final (session d loop c) = loop c.
Proof.
  unfold page_ready, session. intros ->.
  by destruct (pageClose_ok d), (mkdir_ok d).
Qed.

Lemma launched_Ok (d : Driver) (r run : Run) : launched d r = Ok run → run = r.
Proof. unfold launched. destruct (launch_ok d); simpl; congruence. Qed.

(** C1: when a session gets through its target list, the batch has grown
    by exactly the number of targets attempted, the URLs in URL mode and
    the discovered links of all categories in category mode; each target
    appends one entry, a product to [results] or its URL to [failedUrls];
    and the lists only grow at their end. *)
Theorem batch_accounting (JSON_parse : jsstring → option json) (d : Driver) (web : Web) :
  (∀ urls c run,
     crawlByUrls JSON_parse d web urls c = Ok run → page_ready d = true →
     batch_size (final run) = (batch_size c + length urls)%nat
     ∧ results c `prefix_of` results (final run)
     ∧ failedUrls c `prefix_of` failedUrls (final run))
  ∧ (∀ categories c run,
     crawlByCategories JSON_parse d web categories c = Ok run → page_ready d = true →
     batch_size (final run)
     = (batch_size c + length (attempted JSON_parse web categories c))%nat
     ∧ results c `prefix_of` results (final run)
     ∧ failedUrls c `prefix_of` failedUrls (final run))
  ∧ (∀ cat c url,
     (∃ p, results (crawlOne JSON_parse web cat c url) = results c ++ [p] ∧ pdp_url p = url)
       ∧ failedUrls (crawlOne JSON_parse web cat c url) = failedUrls c
     ∨ results (crawlOne JSON_parse web cat c url) = results c
       ∧ failedUrls (crawlOne JSON_parse web cat c url) = failedUrls c ++ [url]).
Proof.
  split_and!.
  - intros urls c run ->%launched_Ok Hready. rewrite session_final by done.
    split; [apply crawlAll_size|apply crawlAll_prefix].
  - intros categories c run ->%launched_Ok Hready. rewrite session_final by done.
    split; [apply categories_size|apply categories_prefix].
  - intros cat c url. apply crawlOne_appends.
Qed.

(** The two end-to-end scenarios of the specification. *)
Lemma batch_accounting_witness :
  (∃ run, crawlByUrls (parse_as foo_block) good_driver second_fails
            [str "u1"; str "u2"; str "u3"] new_crawler = Ok run
          ∧ batch_size (final run) = 3%nat
          ∧ failedUrls (final run) = [str "u2"])
  ∧ (∃ run, crawlByCategories (parse_as foo_block) good_driver listing_then_products
              [sample_category] new_crawler = Ok run
            ∧ batch_size (final run) = 2%nat
            ∧ (category <$> results (final run))
              = [Some (str "Trang phuc nam"); Some (str "Trang phuc nam")]).
Proof.
  destruct (batch_accounting (parse_as foo_block) good_driver second_fails) as (H1 & _ & _).
  destruct (batch_accounting (parse_as foo_block) good_driver listing_then_products)
    as (_ & H2 & _).
  split.
  - eexists. split; [reflexivity|]. split; [|vm_compute; reflexivity].
    exact (proj1 (H1 [str "u1"; str "u2"; str "u3"] new_crawler _ eq_refl eq_refl)).
  - eexists. split; [reflexivity|]. split; [|vm_compute; reflexivity].
    exact (proj1 (H2 [sample_category] new_crawler _ eq_refl eq_refl)).
Defined.

(** ** Errors *)

Lemma navigation_failure_fails (JSON_parse : jsstring → option json) (web : Web)
    (n : nat) (url : jsstring) :
  goto_ok (web n url) = false → crawlProduct JSON_parse web n url = None.
Proof. intros H. unfold crawlProduct, visitProduct. by rewrite H. Qed.

Lemma missing_root_fails (JSON_parse : jsstring → option json) (web : Web)
    (n : nat) (url : jsstring) (doc : CheerioAPI) :
  content (web n url) = Some doc → doc root = [] →
  crawlProduct JSON_parse web n url = None.
Proof.
  intros Hdoc Hroot. unfold crawlProduct, visitProduct, page_content.
  rewrite Hdoc.
  destruct (guard (goto_ok _) _); [|done]. simpl.
  destruct (guard (ready_ok _) _); [|done]. simpl.
  destruct (outcome _); [|done]. simpl.
  destruct (if hasCaptcha _ then _ else _); [|done]. simpl.
  destruct (guard (scroll_ok _) _); [|done]. simpl.
  unfold extract. by rewrite Hroot.
Qed.

Lemma session_saves (d : Driver) (loop : Crawler → Crawler) (c : Crawler) :
  saveResults_called (session d loop c) = page_ready d && pageClose_ok d.
Proof.
  unfold session, page_ready.
  by destruct (newPage_ok d && setViewport_ok d && setHeaders_ok d),
              (pageClose_ok d), (mkdir_ok d).
Qed.

Lemma session_written (d : Driver) (loop : Crawler → Crawler) (c : Crawler) :
  page_ready d = true → pageClose_ok d = true → mkdir_ok d = true →
  written (session d loop c) = Some (output d (loop c)).
Proof. unfold session, page_ready. by intros -> -> ->. Qed.

Lemma session_fatal (d : Driver) (loop : Crawler → Crawler) (c : Crawler) :
  saveResults_called (session d loop c) = false → fatal_logged (session d loop c) = true.
Proof.
  unfold session.
  by destruct (newPage_ok d && setViewport_ok d && setHeaders_ok d),
              (pageClose_ok d), (mkdir_ok d).
Qed.

Lemma session_unsaved (d : Driver) (loop : Crawler → Crawler) (c : Crawler) :
  saveResults_called (session d loop c) = false → written (session d loop c) = None.
Proof.
  unfold session.
  by destruct (newPage_ok d && setViewport_ok d && setHeaders_ok d),
              (pageClose_ok d), (mkdir_ok d).
Qed.

(** What a launched session does with the batch, whatever its loop. *)
Lemma session_persists (d : Driver) (loop : Crawler → Crawler) (c : Crawler) :
  saveResults_called (session d loop c) = page_ready d && pageClose_ok d
  ∧ (page_ready d = true → final (session d loop c) = loop c)
  ∧ (saveResults_called (session d loop c) = true → mkdir_ok d = true →
     written (session d loop c) = Some (output d (loop c)))
  ∧ (saveResults_called (session d loop c) = false →
     fatal_logged (session d loop c) = true ∧ written (session d loop c) = None).
Proof.
  split_and!.
  - apply session_saves.
  - apply session_final.
  - rewrite session_saves. intros [? ?]%andb_prop ?. by apply session_written.
  - intros H. split; [by apply session_fatal|by apply session_unsaved].
Qed.

(** C6: a navigation failure, a CAPTCHA timeout and a missing root element
    each make the product crawl return nothing, and a crawl that returns
    nothing puts the URL at the end of the failure list and leaves the
    rest of the loop to run; once the browser is launched, in URL mode
    and in category mode alike, [saveResults] is called exactly when the
    calls on the page around the loop resolve, whatever happened to the
    targets; the session ends with the batch of the whole target list (of
    all categories), and that batch is the document handed to the file
    system; when [saveResults] is not called the session has logged a
    fatal error and nothing is written. *)
Theorem failures_are_recorded_and_batch_saved (JSON_parse : jsstring → option json)
    (d : Driver) (web : Web) :
  (∀ n url, goto_ok (web n url) = false → crawlProduct JSON_parse web n url = None)
  ∧ (∀ n url, hasCaptcha (web n url) = true → captcha_stays (polls (web n url)) →
              crawlProduct JSON_parse web n url = None)
  ∧ (∀ n url doc, content (web n url) = Some doc → doc root = [] →
                  crawlProduct JSON_parse web n url = None)
  ∧ (∀ cat url rest c,
       crawlProduct JSON_parse web (visits c) url = None →
       crawlAll JSON_parse web cat (url :: rest) c
       = crawlAll JSON_parse web cat rest
           {| results := results c; failedUrls := failedUrls c ++ [url];
              visits := S (visits c) |})
  ∧ (∀ urls c,
       launch_ok d = true →
       ∃ run, crawlByUrls JSON_parse d web urls c = Ok run
         ∧ saveResults_called run = page_ready d && pageClose_ok d
         ∧ (page_ready d = true → final run = crawlAll JSON_parse web None urls c)
         ∧ (saveResults_called run = true → mkdir_ok d = true →
            written run = Some (output d (crawlAll JSON_parse web None urls c)))
         ∧ (saveResults_called run = false → fatal_logged run = true ∧ written run = None))
  ∧ (∀ categories c,
       launch_ok d = true →
       ∃ run, crawlByCategories JSON_parse d web categories c = Ok run
         ∧ saveResults_called run = page_ready d && pageClose_ok d
         ∧ (page_ready d = true →
            final run = fold_left (crawlCategory JSON_parse web) categories c)
         ∧ (saveResults_called run = true → mkdir_ok d = true →
            written run
            = Some (output d (fold_left (crawlCategory JSON_parse web) categories c)))
         ∧ (saveResults_called run = false → fatal_logged run = true ∧ written run = None)).
Proof.
  split_and!.
  - apply navigation_failure_fails.
  - apply captcha_timeout_fails.
  - apply missing_root_fails.
  - intros cat url rest c Hnone. by rewrite crawlAll_cons, crawlOne_failed.
  - intros urls c Hlaunch. eexists. unfold crawlByUrls, launched. rewrite Hlaunch.
    split; [reflexivity|]. apply session_persists.
  - intros categories c Hlaunch. eexists. unfold crawlByCategories, launched. rewrite Hlaunch.
    split; [reflexivity|].
    apply (session_persists d (fun c => fold_left (crawlCategory JSON_parse web) categories c)).
Qed.

(** Every target fails and the batch is written all the same, in URL mode
    and in category mode. *)
Lemma failures_are_recorded_and_batch_saved_witness :
  (∃ run, crawlByUrls (parse_as foo_block) good_driver (always dead_visit)
            [str "u1"; str "u2"] new_crawler = Ok run
          ∧ saveResults_called run = true
          ∧ (failed <$> written run) = Some [str "u1"; str "u2"]
          ∧ (products <$> written run) = Some [])
  ∧ (∃ run, crawlByCategories (parse_as foo_block) good_driver listing_then_dead
              [sample_category] new_crawler = Ok run
            ∧ saveResults_called run = true
            ∧ (failed <$> written run)
              = Some [str "https://www.lazada.vn/products/a-i1.html";
                      str "https://www.lazada.vn/products/b-i2.html"]
            ∧ (products <$> written run) = Some []).
Proof.
  split.
  - destruct (failures_are_recorded_and_batch_saved (parse_as foo_block) good_driver
                (always dead_visit)) as (H1 & _ & _ & H4 & H5 & _).
    destruct (H5 [str "u1"; str "u2"] new_crawler eq_refl) as (run & Hrun & Hs & _ & Hw & _).
    exists run. split; [exact Hrun|]. split; [exact Hs|].
    rewrite (Hw Hs eq_refl).
    rewrite (H4 None (str "u1") [str "u2"] new_crawler (H1 0%nat (str "u1") eq_refl)).
    rewrite (H4 None (str "u2") [] _ (H1 1%nat (str "u2") eq_refl)).
    split; reflexivity.
  - destruct (failures_are_recorded_and_batch_saved (parse_as foo_block) good_driver
                listing_then_dead) as (_ & _ & _ & _ & _ & H6).
    destruct (H6 [sample_category] new_crawler eq_refl) as (run & Hrun & Hs & _ & Hw & _).
    exists run. split; [exact Hrun|]. split; [exact Hs|].
    rewrite (Hw Hs eq_refl). split; vm_compute; reflexivity.
Defined.

(** * Further properties *)

(** ** Link discovery *)

Lemma collect_extends (doc : CheerioAPI) (sels : list Selector) (cap : Z) (a : Links.Acc) :
  Links.links a `prefix_of` Links.links (Links.collect doc sels cap a).
Proof.
  revert a. induction sels as [|sel sels IH]; intros a; simpl; [done|].
  destruct (_ >=? _); [apply each_extends|].
  etrans; [apply each_extends|apply IH].
Qed.

Lemma visit_Forall (P : jsstring → Prop) (a : Links.Acc) (el : Element) :
  (∀ href, includes Links.products_seg (Links.cleanUrl href) = true →
           P (Links.cleanUrl href)) →
  Forall P (Links.links a) → Forall P (Links.links (Links.visit a el)).
Proof.
  intros HP Ha. unfold Links.visit.
  destruct (el_href el) as [href|]; [|done].
  destruct (nonempty href && _ && _); [|done].
  destruct (negb _); simpl; [|done].
  destruct (includes _ _) eqn:Hinc; [|done].
  simpl. apply Forall_app. split; [done|]. apply Forall_singleton. by apply HP.
Qed.

Lemma collect_Forall (P : jsstring → Prop) (doc : CheerioAPI) (sels : list Selector)
    (cap : Z) (a : Links.Acc) :
  (∀ href, includes Links.products_seg (Links.cleanUrl href) = true →
           P (Links.cleanUrl href)) →
  Forall P (Links.links a) → Forall P (Links.links (Links.collect doc sels cap a)).
Proof.
  intros HP.
  assert (∀ sel a, Forall P (Links.links a) → Forall P (Links.links (Links.each doc sel a)))
    as Heach.
  { intros sel. unfold Links.each. generalize (doc sel) as els.
    induction els as [|el els IH]; intros b Hb; simpl; [done|].
    by apply IH, visit_Forall. }
  revert a. induction sels as [|sel sels IH]; intros a Ha; simpl; [done|].
  destruct (_ >=? _); [by apply Heach|]. by apply IH, Heach.
Qed.

(** X1: every link that link discovery returns is an absolute URL, has the
    product segment in it and has no query string. *)
Theorem discovered_links_are_product_urls (web : Web) (n : nat) (url : jsstring) (cap : Z) :
  Forall (λ u, startsWith (str "http") u = true
               ∧ includes (str "/products/") u = true
               ∧ 63%N ∉ u)
         (getProductLinks web n url cap).
Proof.
  destruct (getProductLinks_cases web n url cap) as [->|(doc & _ & ->)]; [done|].
  unfold Links.productLinks, slice0. apply Forall_take.
  apply collect_Forall; [|done].
  intros href Hinc. split_and!;
    [apply cleanUrl_absolute | exact Hinc | apply split_head_sep_free].
Qed.

Lemma collect_monotone (doc : CheerioAPI) (sels : list Selector) (cap1 cap2 : Z)
    (a : Links.Acc) :
  cap1 ≤ cap2 →
  Links.collect doc sels cap2 a = Links.collect doc sels cap1 a
  ∨ (cap1 ≤ Z.of_nat (length (Links.links (Links.collect doc sels cap1 a)))
     ∧ Links.links (Links.collect doc sels cap1 a)
       `prefix_of` Links.links (Links.collect doc sels cap2 a)).
Proof.
  intros Hle. revert a. induction sels as [|sel sels IH]; intros a; simpl; [by left|].
  destruct (Z.geb_spec (Z.of_nat (length (Links.links (Links.each doc sel a)))) cap1) as [H1|H1].
  - right. split; [lia|].
    destruct (_ >=? cap2); [done|apply collect_extends].
  - destruct (Z.geb_spec (Z.of_nat (length (Links.links (Links.each doc sel a)))) cap2);
      [lia|apply IH].
Qed.

Lemma slice0_take {A} (l : list A) (e : Z) : 0 ≤ e → slice0 l e = take (Z.to_nat e) l.
Proof.
  intros He. unfold slice0. destruct (Z.ltb_spec e 0); [lia|].
  destruct (Z.le_ge_cases e (Z.of_nat (length l))).
  - f_equal. lia.
  - rewrite !take_ge by lia. done.
Qed.

Lemma take_prefix_le {A} (l : list A) (n m : nat) :
  (n ≤ m)%nat → take n l `prefix_of` take m l.
Proof.
  intros H. replace (take n l) with (take n (take m l)); [apply prefix_take|].
  rewrite take_take. f_equal. lia.
Qed.

(** X2: raising the cap only adds links at the end: for caps that are not
    negative, the links returned for the smaller cap are a prefix of those
    returned for the larger one. *)
Theorem productLinks_monotone (doc : CheerioAPI) (cap1 cap2 : Z) :
  0 ≤ cap1 → cap1 ≤ cap2 →
  Links.productLinks doc cap1 `prefix_of` Links.productLinks doc cap2.
Proof.
  intros H0 Hle. unfold Links.productLinks. rewrite !slice0_take by lia.
  destruct (collect_monotone doc Links.selectors cap1 cap2 Links.acc0 Hle)
    as [->|[Hfull [k Hk]]].
  - apply take_prefix_le. lia.
  - rewrite Hk. rewrite <- (take_app_le _ k (Z.to_nat cap1)) by lia.
    apply take_prefix_le. lia.
Qed.

Lemma productLinks_monotone_witness :
  Links.productLinks listing3 1 `prefix_of` Links.productLinks listing3 3.
Proof. apply productLinks_monotone; lia. Defined.

Lemma fullUrl_bare (path : jsstring) :
  startsWith (str "/") path = false → startsWith (str "http") path = false →
  Links.fullUrl path = str "https://www.lazada.vn/" ++ path.
Proof.
  intros Hslash Hhttp. unfold Links.fullUrl. rewrite Hslash, Hhttp.
  destruct path as [|c r]; [reflexivity|].
  literals. cbn [startsWith] in *.
  destruct (N.eqb_spec 47 c) as [<-|_]; [discriminate Hslash|reflexivity].
Qed.

Lemma getProductLinks_failure (web : Web) (n : nat) (url : jsstring) (cap : Z) :
  goto_ok (web n url) = false
  ∨ hasCaptcha (web n url) = true ∧ captcha_stays (polls (web n url))
  ∨ scroll_ok (web n url) = false
  ∨ content (web n url) = None →
  getProductLinks web n url cap = [].
Proof.
  unfold getProductLinks, page_content, ensure, handleCaptcha.
  intros [H|[[H1 H2]|[H|H]]].
  - by rewrite H.
  - rewrite H1. destruct (waitLoop_times_out _ 0 0 H2 eq_refl) as [-> _].
    by destruct (guard (goto_ok _) _).
  - rewrite H. destruct (guard (goto_ok _) _); [|done]. simpl.
    by destruct (outcome _).
  - rewrite H. destruct (guard (goto_ok _) _); [|done]. simpl.
    destruct (outcome _); [|done]. simpl.
    by destruct (guard (scroll_ok _) _).
Qed.

(** X4: when the listing page of a category cannot be loaded (navigation
    failure, CAPTCHA timeout, failed scroll or unreadable content), the
    category contributes nothing: no product and no failure entry, the
    listing URL itself is not recorded as failed. *)
Theorem failed_listing_leaves_batch (JSON_parse : jsstring → option json) (web : Web)
    (c : Crawler) (category : Category) :
  goto_ok (web (visits c) (cat_url category)) = false
  ∨ hasCaptcha (web (visits c) (cat_url category)) = true
    ∧ captcha_stays (polls (web (visits c) (cat_url category)))
  ∨ scroll_ok (web (visits c) (cat_url category)) = false
  ∨ content (web (visits c) (cat_url category)) = None →
  results (crawlCategory JSON_parse web c category) = results c
  ∧ failedUrls (crawlCategory JSON_parse web c category) = failedUrls c.
Proof.
  intros H. unfold crawlCategory, discovered.
  by rewrite (getProductLinks_failure _ _ _ _ H).
Qed.

Lemma failed_listing_leaves_batch_witness :
  results (crawlCategory (parse_as foo_block) (always dead_visit) new_crawler sample_category) = []
  ∧ failedUrls (crawlCategory (parse_as foo_block) (always dead_visit) new_crawler
                  sample_category) = [].
Proof.
  apply (failed_listing_leaves_batch (parse_as foo_block) (always dead_visit)
           new_crawler sample_category).
  left. reflexivity.
Defined.

Lemma tracked_acc0 : tracked Links.acc0.
Proof. split; [|done]. intros x. simpl. set_solver. Qed.

Lemma tracked_visit (a : Links.Acc) (el : Element) :
  tracked a → tracked (Links.visit a el).
Proof.
  intros [Hseen Hfix]. unfold Links.visit.
  destruct (el_href el) as [href|]; [|done].
  destruct (nonempty href && _ && _); [|done].
  destruct (negb _ && _); [|done].
  split; simpl.
  - intros x. rewrite elem_of_union, elem_of_singleton, elem_of_app, list_elem_of_singleton.
    rewrite Hseen. tauto.
  - apply Forall_app. split; [done|]. apply Forall_singleton, cleanUrl_idempotent.
Qed.

Lemma tracked_each (doc : CheerioAPI) (sel : Selector) (a : Links.Acc) :
  tracked a → tracked (Links.each doc sel a).
Proof.
  unfold Links.each. generalize (doc sel) as els. intros els. revert a.
  induction els as [|el els IH]; intros a Ha; simpl; [done|].
  by apply IH, tracked_visit.
Qed.

Lemma includes_nonempty (p s : jsstring) :
  p ≠ [] → includes p s = true → nonempty s = true.
Proof. intros Hp. destruct s; [|done]. destruct p; [done|]. simpl. done. Qed.

Lemma visit_takes (a : Links.Acc) (el : Element) (href : jsstring) :
  tracked a → product_anchor el href →
  Links.cleanUrl href ∈ Links.links (Links.visit a el).
Proof.
  intros [Hseen Hfix] (Hhref & Hinc & Hinc'). unfold Links.visit. rewrite Hhref, Hinc, Hinc'.
  rewrite (includes_nonempty Links.products_seg href) by done. simpl.
  destruct (bool_decide_reflect (href ∈ Links.seen a)) as [Hin|_]; simpl.
  - apply Hseen in Hin. rewrite Forall_forall in Hfix.
    by rewrite (Hfix href Hin).
  - destruct (bool_decide_reflect (Links.cleanUrl href ∈ Links.seen a)) as [Hin|_]; simpl.
    + by apply Hseen.
    + apply elem_of_app. right. by apply list_elem_of_singleton.
Qed.

Lemma each_takes (doc : CheerioAPI) (sel : Selector) (a : Links.Acc)
    (el : Element) (href : jsstring) :
  tracked a → el ∈ doc sel → product_anchor el href →
  Links.cleanUrl href ∈ Links.links (Links.each doc sel a).
Proof.
  unfold Links.each. generalize (doc sel) as els. intros els. revert a.
  induction els as [|e els IH]; intros a Ha Hel Hp; [by apply elem_of_nil in Hel|].
  simpl. apply elem_of_cons in Hel as [->|Hel].
  - pose proof (visit_takes a e href Ha Hp) as Hin.
    assert (Links.links (Links.visit a e)
            `prefix_of` Links.links (fold_left Links.visit els (Links.visit a e))) as [k ->].
    { apply (each_extends (λ _, els) a_href_products). }
    apply elem_of_app. by left.
  - apply IH; [by apply tracked_visit|done..].
Qed.

Lemma collect_takes (doc : CheerioAPI) (sels : list Selector) (cap : Z) (a : Links.Acc)
    (sel : Selector) (el : Element) (href : jsstring) :
  tracked a →
  Z.of_nat (length (Links.links (Links.collect doc sels cap a))) < cap →
  sel ∈ sels → el ∈ doc sel → product_anchor el href →
  Links.cleanUrl href ∈ Links.links (Links.collect doc sels cap a).
Proof.
  revert a. induction sels as [|s0 sels IH]; intros a Ha Hlen Hsel Hel Hp;
    [by apply elem_of_nil in Hsel|].
  simpl in *.
  destruct (Z.geb_spec (Z.of_nat (length (Links.links (Links.each doc s0 a)))) cap); [lia|].
  apply elem_of_cons in Hsel as [->|Hsel].
  - destruct (collect_extends doc sels cap (Links.each doc s0 a)) as [k ->].
    apply elem_of_app. left. by apply (each_takes doc s0 a el href).
  - apply IH; [by apply tracked_each|done..].
Qed.

(** X5: below the cap no product link is lost: when the links collected
    stay under the cap, the normalized href of every product anchor that
    any of the four selectors matches is among the links returned. *)
Theorem no_product_link_lost (doc : CheerioAPI) (cap : Z)
    (sel : Selector) (el : Element) (href : jsstring) :
  Z.of_nat (length (Links.links (Links.collect doc Links.selectors cap Links.acc0))) < cap →
  sel ∈ Links.selectors → el ∈ doc sel → product_anchor el href →
  Links.cleanUrl href ∈ Links.productLinks doc cap.
Proof.
  intros Hlen Hsel Hel Hp. unfold Links.productLinks.
  rewrite slice0_take by lia. rewrite take_ge by lia.
  by apply (collect_takes doc Links.selectors cap Links.acc0 sel el href tracked_acc0).
Qed.

Lemma no_product_link_lost_witness :
  str "https://www.lazada.vn/products/b-i2.html" ∈ Links.productLinks listing3 50.
Proof.
  apply (no_product_link_lost listing3 50 a_href_products
           (anchor "//www.lazada.vn/products/b-i2.html")
           (str "//www.lazada.vn/products/b-i2.html")).
  - vm_compute. reflexivity.
  - apply list_elem_of_here.
  - apply list_elem_of_further, list_elem_of_here.
  - split_and!; reflexivity.
Defined.

Lemma split_head_query (pre query : jsstring) :
  63%N ∉ pre → query = [] ∨ (∃ q, query = 63%N :: q) →
  split_head 63%N (pre ++ query) = pre.
Proof.
  intros Hpre Hq. induction pre as [|a pre IH]; simpl.
  - destruct Hq as [->|[q ->]]; reflexivity.
  - apply not_elem_of_cons in Hpre as [Hne Hpre].
    destruct (N.eqb_spec a 63) as [->|_]; [done|]. by rewrite IH.
Qed.

Lemma startsWith_slash_query (path query : jsstring) :
  startsWith (str "/") path = false → query = [] ∨ (∃ q, query = 63%N :: q) →
  startsWith (str "/") (path ++ query) = false.
Proof.
  intros Hp Hq. destruct path as [|c r]; [|exact Hp].
  destruct Hq as [->|[q ->]]; reflexivity.
Qed.

Lemma startsWith_http_query (path query : jsstring) :
  startsWith (str "http") path = false → query = [] ∨ (∃ q, query = 63%N :: q) →
  startsWith (str "http") (path ++ query) = false.
Proof.
  intros Hp Hq. literals.
  destruct path as [|c1 [|c2 [|c3 [|c4 r]]]]; [| | | |exact Hp];
    destruct Hq as [->|[q ->]]; cbn [app startsWith] in *;
    rewrite ?andb_false_r in *; try done;
    repeat match goal with
    | |- context [(?a =? ?b)%N] => destruct (N.eqb_spec a b); cbn [andb]; try done
    end.
Qed.

Lemma cleanUrl_form (path href : jsstring) :
  site_path path → links_to path href →
  Links.cleanUrl href = str "https://www.lazada.vn/" ++ path.
Proof.
  intros (Hslash & Hhttp & Hquery) (form & query & Hform & -> & Hq).
  assert (63%N ∉ str "https://www.lazada.vn/" ++ path) as Hfree.
  { rewrite not_elem_of_app. split; [|done].
    apply (bool_decide_unpack _). vm_compute. exact I. }
  pose proof (startsWith_slash_query path query Hslash Hq) as Hs.
  pose proof (startsWith_http_query path query Hhttp Hq) as Hh.
  unfold forms in Hform. rewrite !elem_of_cons in Hform.
  unfold Links.cleanUrl.
  destruct Hform as [->|[->|[->|[->|Hnil]]]]; [| | | |by apply elem_of_nil in Hnil].
  - rewrite (fullUrl_bare (path ++ query)) by done.
    rewrite app_assoc. by apply split_head_query.
  - replace (Links.fullUrl ((str "/" ++ path) ++ query))
      with (str "https://www.lazada.vn/" ++ path ++ query).
    + rewrite app_assoc. by apply split_head_query.
    + unfold Links.fullUrl.
      replace (startsWith (str "//") ((str "/" ++ path) ++ query))
        with (startsWith (str "/") (path ++ query)) by reflexivity.
      rewrite Hs. reflexivity.
  - rewrite <- app_assoc.
    replace (Links.fullUrl (str "//www.lazada.vn/" ++ path ++ query))
      with (str "https://www.lazada.vn/" ++ path ++ query) by reflexivity.
    rewrite app_assoc. by apply split_head_query.
  - rewrite <- app_assoc.
    replace (Links.fullUrl (str "https://www.lazada.vn/" ++ path ++ query))
      with (str "https://www.lazada.vn/" ++ path ++ query) by reflexivity.
    rewrite app_assoc. by apply split_head_query.
Qed.

Lemma occurrences_NoDup (url : jsstring) (l : list jsstring) :
  NoDup l →
  (occurrences url l ≤ 1)%nat ∧ (url ∈ l → occurrences url l = 1%nat).
Proof.
  unfold occurrences. induction 1 as [|x l Hx _ [IH1 IH2]]; simpl.
  - split; [lia|]. by intros ?%elem_of_nil.
  - destruct (bool_decide_reflect (x = url)) as [->|Hne]; simpl.
    + assert (length (List.filter (fun y => bool_decide (y = url)) l) = 0%nat) as ->.
      { destruct (List.filter _ l) as [|y r] eqn:Hf; [done|].
        assert (In y (List.filter (fun y => bool_decide (y = url)) l)) as Hin
          by (rewrite Hf; by left).
        apply filter_In in Hin as [Hin ->%bool_decide_eq_true].
        by apply list_elem_of_In in Hin. }
      split; [lia|done].
    + split; [done|]. intros [?|?]%elem_of_cons; [congruence|auto].
Qed.

(** X3: a product that a listing links in several forms (bare-relative,
    site-relative, protocol-relative, absolute, each with or without a
    query string) is discovered once: every form of a path of the site
    normalizes to the absolute URL of the path, that URL is at most once
    among the links returned, whatever the page and the cap, and exactly
    once when a selector matches a product anchor in one of the forms and
    the links collected stay under the cap. *)
Theorem product_forms_discovered_once (doc : CheerioAPI) (cap : Z) (path : jsstring) :
  site_path path →
  (∀ href, links_to path href →
           Links.cleanUrl href = str "https://www.lazada.vn/" ++ path)
  ∧ (occurrences (str "https://www.lazada.vn/" ++ path) (Links.productLinks doc cap) ≤ 1)%nat
  ∧ (∀ sel el href,
       Z.of_nat (length (Links.links (Links.collect doc Links.selectors cap Links.acc0))) < cap →
       sel ∈ Links.selectors → el ∈ doc sel → product_anchor el href →
       links_to path href →
       occurrences (str "https://www.lazada.vn/" ++ path) (Links.productLinks doc cap)
       = 1%nat).
Proof.
  intros Hpath.
  assert (NoDup (Links.productLinks doc cap)) as Hnd.
  { apply (NoDup_fmap_1 canonical), productLinks_nodup. }
  split_and!.
  - intros href. by apply cleanUrl_form.
  - by apply occurrences_NoDup.
  - intros sel el href Hlen Hsel Hel Hp Hto.
    apply occurrences_NoDup; [done|].
    rewrite <- (cleanUrl_form path href Hpath Hto).
    unfold Links.productLinks. rewrite slice0_take by lia. rewrite take_ge by lia.
    by apply (collect_takes doc Links.selectors cap Links.acc0 sel el href tracked_acc0).
Qed.

Lemma product_forms_discovered_once_witness :
  Links.productLinks listing_forms 50
  = [str "https://www.lazada.vn/products/a-i1.html";
     str "https://www.lazada.vn/products/b-i2.html"]
  ∧ occurrences (str "https://www.lazada.vn/products/a-i1.html")
      (Links.productLinks listing_forms 50) = 1%nat
  ∧ Links.cleanUrl (str "//www.lazada.vn/products/a-i1.html")
    = str "https://www.lazada.vn/products/a-i1.html".
Proof.
  assert (site_path (str "products/a-i1.html")) as Hpath.
  { split_and!; [reflexivity..|]. apply (bool_decide_unpack _). vm_compute. exact I. }
  destruct (product_forms_discovered_once listing_forms 50 (str "products/a-i1.html") Hpath)
    as (Hforms & _ & Honce).
  split_and!.
  - vm_compute. reflexivity.
  - apply (Honce Bm3ON (anchor "https://www.lazada.vn/products/a-i1.html?spm=2")
             (str "https://www.lazada.vn/products/a-i1.html?spm=2")).
    + vm_compute. reflexivity.
    + apply list_elem_of_further, list_elem_of_here.
    + apply list_elem_of_here.
    + split_and!; reflexivity.
    + exists (str "https://www.lazada.vn/products/a-i1.html"), (str "?spm=2").
      split_and!; [|reflexivity|right; by eexists].
      do 3 apply list_elem_of_further. apply list_elem_of_here.
  - apply Hforms.
    exists (str "//www.lazada.vn/products/a-i1.html"), [].
    split_and!; [|reflexivity|by left].
    do 2 apply list_elem_of_further. apply list_elem_of_here.
Defined.

(** ** Title, prices and description *)

Lemma trimStart_head (s : jsstring) (c : char16) (r : jsstring) :
  trimStart s = c :: r → is_space c = false.
Proof.
  induction s as [|a s IH]; simpl; [done|].
  destruct (is_space a) eqn:Ha; [done|]. by intros [= <- _].
Qed.

Lemma trim_trimmed (s : jsstring) : trimmed (trim s).
Proof.
  unfold trim, trimEnd. split.
  - intros c r Hc.
    destruct (trimStart_suffix (reverse (trimStart s))) as [k Hk].
    apply (f_equal reverse) in Hk. rewrite reverse_involutive, reverse_app, Hc in Hk.
    simpl in Hk. by apply (trimStart_head s c (r ++ reverse k)).
  - intros c r Hc. apply (f_equal reverse) in Hc.
    rewrite reverse_involutive, reverse_app in Hc. simpl in Hc.
    by apply (trimStart_head _ _ _ Hc).
Qed.

(** X6: the title read from the page is either empty or a string of more
    than ten code units with no white space at either end. *)
Theorem getTitle_shape (doc : CheerioAPI) :
  getTitle doc = []
  ∨ (10 < length (getTitle doc))%nat ∧ trimmed (getTitle doc).
Proof.
  rewrite getTitle_first.
  destruct (List.find acceptable (title_candidates doc)) as [t|] eqn:Hfind; [|by left].
  right. simpl. apply find_some in Hfind as [Hin Hacc].
  unfold acceptable in Hacc. apply andb_prop in Hacc as [_ Hlen%Z.ltb_lt].
  split; [lia|].
  unfold title_candidates in Hin. apply list_elem_of_In, list_elem_of_fmap in Hin as (sel & -> & _).
  apply trim_trimmed.
Qed.

(** X7: the price container takes precedence: as soon as one of its two
    sub-elements gives a non-empty normalized text, the prices are those
    two texts and the pattern scan of the price-class element is not
    consulted. *)
Theorem getPrices_container_first (doc : CheerioAPI) :
  normalize true (first_text doc origin_block_span) ≠ []
  ∨ normalize true (first_text doc pdp_price_type_normal) ≠ [] →
  getPrices doc
  = {| regularPrice := normalize true (first_text doc origin_block_span);
       salePrice := normalize true (first_text doc pdp_price_type_normal) |}.
Proof.
  intros H. unfold getPrices.
  assert (∀ t, (if nonempty t then normalize true t else []) = normalize true t) as Hn.
  { intros [|c t]; reflexivity. }
  rewrite !Hn.
  destruct (normalize true (first_text doc origin_block_span)) as [|a r];
    destruct (normalize true (first_text doc pdp_price_type_normal)) as [|b q];
    simpl; try done.
  by destruct H.
Qed.

Lemma getPrices_container_first_witness :
  getPrices (fun sel =>
    match sel with
    | pdp_price_type_normal => [ {| el_text := str "Rp 12.000"; el_href := None; el_html := [] |} ]
    | class_price => [ {| el_text := sample_price_text; el_href := None; el_html := [] |} ]
    | _ => []
    end)
  = {| regularPrice := []; salePrice := str "12000" |}.
Proof.
  rewrite getPrices_container_first; [reflexivity|].
  right. vm_compute. discriminate.
Defined.

(** X8: whatever the page, neither price of [getPrices] contains a dong
    sign, a comma, a dot or white space. *)
Theorem prices_have_no_separator (doc : CheerioAPI) :
  Forall (λ c, c ≠ dong ∧ is_sep c = false) (regularPrice (getPrices doc))
  ∧ Forall (λ c, c ≠ dong ∧ is_sep c = false) (salePrice (getPrices doc)).
Proof.
  assert (∀ rp s, Forall (λ c, c ≠ dong ∧ is_sep c = false) (normalize rp s)) as Hn.
  { intros rp s. eapply Forall_impl; [apply normalize_kept|].
    intros c. unfold kept. destruct (N.eqb_spec c dong); [done|]. by destruct (is_sep c). }
  unfold getPrices.
  destruct (nonempty (first_text doc origin_block_span)),
           (nonempty (first_text doc pdp_price_type_normal)); simpl;
    repeat case_match; simpl; split; try apply Hn; done.
Qed.

Lemma match_here_prefix (s m : jsstring) :
  match_here s = Some m → ∃ post, s = m ++ post.
Proof.
  unfold match_here.
  destruct (span is_amount s) as [amount r1] eqn:H1.
  destruct (span is_space r1) as [blank r2] eqn:H2.
  apply span_spec in H1 as [_ ->]. apply span_spec in H2 as [_ ->].
  destruct amount as [|a amount]; [done|].
  destruct r2 as [|c r2]; [done|].
  destruct (N.eqb_spec c dong) as [->|_]; [|done].
  intros [= <-]. exists r2. simpl. f_equal. by rewrite <- !app_assoc.
Qed.

Lemma scan_substring (k : nat) (s m : jsstring) :
  m ∈ scan k s → ∃ pre post, s = pre ++ m ++ post.
Proof.
  revert k. induction s as [|c s IH]; intros k; simpl.
  - by intros ?%elem_of_nil.
  - assert (∀ j, m ∈ scan j s → ∃ pre post, c :: s = pre ++ m ++ post) as Hrest.
    { intros j (pre & post & ->)%IH. by exists (c :: pre), post. }
    destruct k as [|k]; [|apply Hrest].
    destruct (match_here (c :: s)) as [m0|] eqn:Hm; [|apply Hrest].
    intros [->|Hin]%elem_of_cons; [|by eapply Hrest].
    apply match_here_prefix in Hm as [post Hpost]. by exists [], post.
Qed.

(** X9: every match of the pattern scan is a piece of the scanned text
    that begins with a digit, a dot or a comma and ends with the dong
    sign; in particular a text without dong sign has no match, so that a
    page priced in another currency gets no price from the scan. *)
Theorem priceMatches_sound (priceText : jsstring) :
  (∀ m, m ∈ priceMatches priceText →
        (∃ pre post, priceText = pre ++ m ++ post)
        ∧ (∃ c body, m = c :: body ++ [dong] ∧ is_amount c = true))
  ∧ (dong ∉ priceText → priceMatches priceText = []).
Proof.
  assert (∀ m, m ∈ priceMatches priceText →
               (∃ pre post, priceText = pre ++ m ++ post)
               ∧ (∃ c body, m = c :: body ++ [dong] ∧ is_amount c = true)) as Hsound.
  { intros m Hm. split; [by eapply scan_substring|].
    apply scan_matches in Hm as [s (amount & blank & -> & Hne & Ha & _)%match_here_shape].
    destruct amount as [|c amount]; [done|].
    exists c, (amount ++ blank). split; [by rewrite <- app_assoc|].
    by apply Forall_cons in Ha as [? _]. }
  split; [exact Hsound|].
  intros Hno. destruct (priceMatches priceText) as [|m ms] eqn:Hm; [done|].
  destruct (Hsound m) as [(pre & post & ->) (c & body & -> & _)];
    [first [by left | rewrite Hm; by left]|].
  exfalso. apply Hno. rewrite !elem_of_app, elem_of_cons, elem_of_app, list_elem_of_singleton.
  tauto.
Qed.

Lemma priceMatches_sound_witness :
  priceMatches (str "Rp 12.000 Rp 15.000") = [].
Proof.
  apply (proj2 (priceMatches_sound (str "Rp 12.000 Rp 15.000"))).
  vm_compute. intros H. repeat (apply elem_of_cons in H as [H|H]; [discriminate H|]).
  by apply elem_of_nil in H.
Defined.

Lemma remove_dash_space_upto (P : char16 → Prop) (n : nat) (s : jsstring) :
  (length s ≤ n)%nat → Forall P s → Forall P (remove_dash_space s).
Proof.
  revert s. induction n as [|n IH]; intros [|c s] Hn Hs; simpl in Hn; try lia; [done..|].
  apply Forall_cons in Hs as [Hc Hs]. cbn [remove_dash_space].
  destruct s as [|c2 s]; [by constructor|].
  destruct ((c =? 45)%N && (c2 =? 32)%N).
  - apply Forall_cons in Hs as [_ Hs]. apply IH; [simpl in Hn; lia|done].
  - constructor; [done|]. apply IH; [lia|done].
Qed.

Lemma join_Forall (P : char16 → Prop) (sep : jsstring) (l : list jsstring) :
  Forall P sep → Forall (Forall P) l → Forall P (join sep l).
Proof.
  intros Hsep. induction 1 as [|x l Hx Hl IH]; simpl; [done|].
  destruct l as [|y l]; [done|].
  apply Forall_app. split; [done|]. apply Forall_app. by split.
Qed.

Lemma paragraph_no_newline (el : Element) : Forall (λ c, c ≠ 10%N) (paragraph el).
Proof.
  unfold paragraph. apply trim_Forall.
  apply (remove_dash_space_upto _ (length (remove_newlines (el_text el)))); [lia|].
  unfold remove_newlines. apply Forall_forall.
  intros c [_ Hc]%list_elem_of_In%filter_In.
  by destruct (N.eqb_spec c 10).
Qed.

(** X10: the description read from the page never contains a line feed,
    and it is empty when the article has no paragraph or only paragraphs
    that are blank once cleaned. *)
Theorem getDescription_clean (doc : CheerioAPI) :
  Forall (λ c, c ≠ 10%N) (getDescription doc)
  ∧ (Forall (λ el, paragraph el = []) (doc article_p) → getDescription doc = []).
Proof.
  unfold getDescription. split.
  - apply join_Forall; [by repeat constructor|].
    apply Forall_forall. intros p [Hp _]%list_elem_of_In%filter_In.
    apply in_map_iff in Hp as (el & <- & _). apply paragraph_no_newline.
  - induction 1 as [|el els Hel _ IH]; simpl; [done|].
    rewrite Hel. simpl. exact IH.
Qed.

Lemma getDescription_clean_witness :
  getDescription (fun sel =>
    match sel with
    | article_p => [ {| el_text := str " - "; el_href := None; el_html := [] |} ]
    | _ => []
    end) = [].
Proof.
  apply (proj2 (getDescription_clean _)).
  repeat constructor.
Defined.

(** ** The JSON-LD result *)

Lemma preserves_seq (P : JsonLdData → Prop) (s1 s2 : Stmt) :
  preserves P s1 → preserves P s2 → preserves P (seq s1 s2).
Proof.
  intros H1 H2 r Hr. unfold seq. specialize (H1 r Hr).
  destruct (s1 r) as [r'|r']; simpl in *; [by apply H2|done].
Qed.

Lemma preserves_copy_field (P : JsonLdData → Prop) jsonData key set :
  (∀ v r, P r → P (set v r)) → preserves P (copy_field jsonData key set).
Proof.
  intros Hset r Hr. unfold copy_field.
  destruct (prop jsonData key) as [[v|]|]; [|done..].
  destruct (truthy (Some v)); simpl; [by apply Hset|done].
Qed.

Lemma well_formed_image (jsonData : value) : preserves well_formed (image_stmt jsonData).
Proof.
  intros r [Hs Hi]. unfold image_stmt.
  destruct (prop jsonData (str "image")) as [image|]; [|done].
  destruct (truthy image); [|done].
  assert (∀ u : json,
    well_formed (finish
      (if truthy (Some u) then
         match startsWith_method u (str "http"), toString u with
         | Ok true, Ok s => Next (set_imageUrl s r)
         | Ok false, Ok s => Next (set_imageUrl (str "https:" ++ s) r)
         | _, _ => Caught r
         end
       else Next r))) as Hu.
  { intros u. destruct (truthy (Some u)); [|done].
    destruct u as [|b|n|s|l|fs|y]; try done.
    cbn [startsWith_method]. destruct (startsWith (str "http") s) eqn:Hs'; simpl.
    - split; [done|]. by right.
    - split; [done|]. right. reflexivity. }
  destruct image as [[|b|n|s|[|x l]|fs|y]|]; apply Hu.
Qed.

Lemma well_formed_stock (jsonData : value) : preserves well_formed (stock_stmt jsonData).
Proof.
  intros r [Hs Hi]. unfold stock_stmt.
  repeat case_match; simpl; try done; split; try done; auto.
Qed.

Lemma well_formed_price (jsonData : value) : preserves well_formed (price_stmt jsonData).
Proof.
  intros r [Hs Hi]. unfold price_stmt.
  repeat case_match; simpl; done.
Qed.

Lemma getJsonLdData_well_formed (JSON_parse : jsstring → option json) (doc : CheerioAPI) :
  well_formed (getJsonLdData JSON_parse doc).
Proof.
  assert (well_formed result0) as H0 by (split; by left).
  rewrite getJsonLdData_block. destruct (ld_block JSON_parse doc) as [jsonData|]; [|done].
  revert H0. generalize result0. change (preserves well_formed (body (Some jsonData))).
  unfold body.
  repeat apply preserves_seq;
    first [ by apply preserves_copy_field | apply well_formed_image
          | apply well_formed_stock | apply well_formed_price ].
Qed.

(** X11: in every product record the stock flag is "0" or "1" and the
    image URL is empty or an absolute URL, whatever the JSON-LD block
    holds and whether or not reading it throws. *)
Theorem record_stock_and_image_well_formed (JSON_parse : jsstring → option json)
    (web : Web) (n : nat) (url : jsstring) (p : LazadaProduct) :
  crawlProduct JSON_parse web n url = Some p →
  (vosa p = str "0" ∨ vosa p = str "1")
  ∧ (pdp_image_url p = [] ∨ startsWith (str "http") (pdp_image_url p) = true).
Proof.
  intros (doc & _ & He)%crawlProduct_Some.
  apply extract_Ok in He as (_ & _ & _ & _ & _ & -> & -> & _).
  apply getJsonLdData_well_formed.
Qed.

Lemma record_stock_and_image_well_formed_witness :
  ∃ p, crawlProduct (parse_as image_string_block)
         (always (smooth_visit (product_page [] [] []))) 0 sample_url = Some p
       ∧ (vosa p = str "0" ∨ vosa p = str "1")
       ∧ (pdp_image_url p = [] ∨ startsWith (str "http") (pdp_image_url p) = true).
Proof.
  eexists. split; [vm_compute; reflexivity|].
  apply (record_stock_and_image_well_formed (parse_as image_string_block)
           (always (smooth_visit (product_page [] [] []))) 0 sample_url).
  vm_compute. reflexivity.
Defined.

(** X12: a JSON-LD block that is missing, empty, unparseable, or parses to
    anything but an object (an array of objects, a string, a number,
    null) gives the default result: nothing is read from it. *)
Theorem nonobject_block_gives_defaults (JSON_parse : jsstring → option json)
    (doc : CheerioAPI) :
  ld_block JSON_parse doc = None
  ∨ (∃ v, ld_block JSON_parse doc = Some v ∧ ∀ fields, v ≠ JObj fields) →
  getJsonLdData JSON_parse doc = result0.
Proof.
  rewrite getJsonLdData_block. intros [->|(v & -> & Hv)]; [done|].
  destruct v as [|b|n|s|l|fields|x]; try reflexivity.
  by destruct (Hv fields).
Qed.

Lemma nonobject_block_gives_defaults_witness :
  getJsonLdData (parse_as (JArr [image_string_block])) (product_page [] [] []) = result0.
Proof.
  apply nonobject_block_gives_defaults. right.
  exists (JArr [image_string_block]). split; [reflexivity|]. intros fields. discriminate.
Defined.

Lemma copy_field_object (fields : list (jsstring * json)) key set (r : JsonLdData) :
  copy_field (Some (JObj fields)) key set r
  = Next match lookup_field key fields with
         | Some v => if truthy (Some v) then set v r else r
         | None => r
         end.
Proof.
  unfold copy_field. simpl prop.
  destruct (lookup_field key fields) as [v|]; [|done]. by destruct (truthy (Some v)).
Qed.

(** X13: the name, the description and the SKU of an object block are
    read before anything can throw: each is the value of its property
    when that is truthy and the empty string otherwise, whatever the
    image and offers entries are, even when they make the rest fail. *)
Theorem identity_fields_survive (JSON_parse : jsstring → option json) (doc : CheerioAPI)
    (fields : list (jsstring * json)) :
  ld_block JSON_parse doc = Some (JObj fields) →
  name (getJsonLdData JSON_parse doc) = entry fields (str "name")
  ∧ description (getJsonLdData JSON_parse doc) = entry fields (str "description")
  ∧ productId (getJsonLdData JSON_parse doc) = entry fields (str "sku").
Proof.
  intros Hb. rewrite getJsonLdData_block, Hb. unfold body.
  assert (∀ A (f : JsonLdData → A),
    (∀ s r, f (set_imageUrl s r) = f r) → (∀ s r, f (set_stock s r) = f r) →
    (∀ s r, f (set_priceFromJson s r) = f r) →
    keeps f (seq (image_stmt (Some (JObj fields)))
               (seq (stock_stmt (Some (JObj fields))) (price_stmt (Some (JObj fields))))))
    as Hk.
  { intros A f H1 H2 H3. repeat apply keeps_seq;
      [by apply keeps_image|by apply keeps_stock|by apply keeps_price]. }
  unfold entry.
  split_and!;
    (unfold seq at 1; rewrite copy_field_object;
     unfold seq at 1; rewrite copy_field_object;
     unfold seq at 1; rewrite copy_field_object;
     rewrite Hk by done;
     destruct (lookup_field (str "name") fields) as [v1|];
     destruct (lookup_field (str "description") fields) as [v2|];
     destruct (lookup_field (str "sku") fields) as [v3|];
     repeat match goal with |- context [truthy ?x] => destruct (truthy x) end;
     done).
Qed.

Lemma identity_fields_survive_witness :
  productId (getJsonLdData (parse_as sku_block) (product_page [] [] [])) = JNum 123456
  ∧ priceFromJson (getJsonLdData (parse_as sku_block) (product_page [] [] [])) = [].
Proof.
  split; [|reflexivity].
  exact (proj2 (proj2 (identity_fields_survive (parse_as sku_block) (product_page [] [] [])
                         _ eq_refl))).
Defined.

(** The price of the block is kept as [String] prints it: a string as it
    is, a number in its decimal or exponent form; a price that cannot be
    converted, an object with a [toString] entry, throws at line 362 and
    leaves the field empty. *)
Lemma priceFromJson_printed :
  let price_of v := priceFromJson (getJsonLdData (parse_as (priced_block v)) (product_page [] [] [])) in
  price_of (JStr (str "271.043")) = str "271.043"
  ∧ price_of (JNum 271043) = str "271043"
  ∧ price_of (JReal (str "1e+21")) = str "1e+21"
  ∧ price_of (JArr [JNum 1; JNull; JStr (str "a")]) = str "1,,a"
  ∧ price_of (JObj [(str "value", JNum 5)]) = str "[object Object]"
  ∧ price_of (JObj [(str "toString", JNum 5)]) = []
  ∧ price_of (JNum 0) = [].
Proof. vm_compute. repeat split. Qed.

(** ** The wait loop *)

Lemma waitLoop_rounds (pl : nat → Poll) (i : nat) (elapsed : Z) :
  elapsed = clock pl i → (i ≤ 30)%nat → (rounds (waitLoop pl i elapsed) ≤ 30)%nat.
Proof.
  funelim (waitLoop pl i elapsed); intros -> Hi.
  - pose proof (clock_lower polls0 i). unfold maxWaitTime in *.
    destruct (present (polls0 i)); [apply H; [reflexivity|lia]|simpl; lia].
  - simpl. lia.
Qed.

(** X14: the wait loop runs at most thirty rounds, whatever the page does:
    each round lasts two seconds or more and the deadline is sixty. *)
Theorem handleCaptcha_at_most_30_rounds (pl : nat → Poll) :
  (rounds (handleCaptcha pl) ≤ 30)%nat.
Proof. apply waitLoop_rounds; [reflexivity|lia]. Qed.

(** X15: when the CAPTCHA is gone at the end of round [k], for the first
    time, and that round starts before the deadline, the guard returns
    normally after exactly [k + 1] rounds. *)
Theorem handleCaptcha_solved (pl : nat → Poll) (k : nat) :
  clears_at pl k → clock pl k < maxWaitTime →
  handleCaptcha pl = {| outcome := Ok tt; rounds := S k; waited := clock pl (S k) |}.
Proof. intros Hk Hdead. apply (waitLoop_clears pl 0 0 k); [done..|lia|reflexivity]. Qed.

Lemma handleCaptcha_solved_witness :
  handleCaptcha solved_in_three = {| outcome := Ok tt; rounds := 3; waited := 7200 |}.
Proof.
  apply (handleCaptcha_solved solved_in_three 2).
  - split; [reflexivity|]. intros j Hj. unfold solved_in_three. simpl.
    by apply Nat.ltb_lt.
  - vm_compute. reflexivity.
Defined.

Lemma waitLoop_throws (pl : nat → Poll) (i : nat) (elapsed : Z) (e : error) :
  (∀ j, (j < i)%nat → present (pl j) = true) → elapsed = clock pl i →
  outcome (waitLoop pl i elapsed) = Throw e →
  e = CaptchaTimeout ∧ captcha_stays pl.
Proof.
  funelim (waitLoop pl i elapsed); intros Hbefore ->.
  - destruct (present (polls0 i)) eqn:Hp; [|done].
    apply H; [|reflexivity]. intros j Hj.
    destruct (decide (j = i)) as [->|]; [done|apply Hbefore; lia].
  - simpl. intros [= <-]. split; [done|]. intros j Hj.
    apply Hbefore. destruct (decide (j < i)%nat) as [|Hge]; [done|].
    pose proof (clock_monotone polls0 i j ltac:(lia)). lia.
Qed.

(** X16: the guard throws exactly when the CAPTCHA is still there at the
    end of every round that starts before the deadline, and the only
    error it throws is the timeout. *)
Theorem handleCaptcha_throws_iff (pl : nat → Poll) :
  (outcome (handleCaptcha pl) = Throw CaptchaTimeout ↔ captcha_stays pl)
  ∧ (∀ e, outcome (handleCaptcha pl) = Throw e → e = CaptchaTimeout).
Proof.
  split; [split|].
  - intros H. apply (waitLoop_throws pl 0 0 CaptchaTimeout); [lia|reflexivity|exact H].
  - intros H. by apply waitLoop_times_out.
  - intros e H. apply (waitLoop_throws pl 0 0 e); [lia|reflexivity|exact H].
Qed.

(** ** The product crawl *)

Lemma finalTitle_value (JSON_parse : jsstring → option json) (doc : CheerioAPI) :
  finalTitle JSON_parse doc
  = match List.find acceptable (title_candidates doc) with
    | Some t => JStr t
    | None => default (JStr []) (supplied_name (ld_block JSON_parse doc))
    end.
Proof.
  unfold finalTitle. rewrite getTitle_first.
  destruct (List.find acceptable (title_candidates doc)) as [t|] eqn:Hfind; simpl.
  - apply find_some in Hfind as [_ Ht]. by rewrite (acceptable_nonempty _ Ht).
  - rewrite getJsonLdData_block. unfold supplied_name.
    destruct (ld_block JSON_parse doc) as [[|b|n|s|l|fields|x]|]; try reflexivity.
    rewrite name_of_body. cbn [prop].
    destruct (lookup_field (str "name") fields) as [x|]; [|done].
    by destruct (truthy (Some x)).
Qed.

(** X17: a target yields a product exactly when the navigation and the
    wait for the load resolve, the CAPTCHA (if one shows) goes away in
    time and the page reloads, the scroll and the read of the content
    resolve, the page has the root element and the final title is a
    string. A timeout of the wait for the load alone makes it fail. *)
Theorem crawlProduct_succeeds_iff (JSON_parse : jsstring → option json)
    (web : Web) (n : nat) (url : jsstring) :
  is_Some (crawlProduct JSON_parse web n url)
  ↔ goto_ok (web n url) = true
    ∧ ready_ok (web n url) = true
    ∧ (hasCaptcha (web n url) = true →
       outcome (handleCaptcha (polls (web n url))) = Ok tt ∧ reload_ok (web n url) = true)
    ∧ scroll_ok (web n url) = true
    ∧ ∃ doc title, content (web n url) = Some doc
                   ∧ doc root ≠ []
                   ∧ finalTitle JSON_parse doc = JStr title.
Proof.
  unfold crawlProduct, visitProduct, page_content, ensure, extract.
  set (v := web n url).
  assert (∀ A, is_Some (@None A) → False) as Hopt by (by intros A [? ?]).
  destruct (goto_ok v); simpl;
    [|split; [by intros ?%Hopt|by intros (? & _)]].
  destruct (ready_ok v); simpl;
    [|split; [by intros ?%Hopt|by intros (_ & ? & _)]].
  assert (∀ ok : bool,
    (hasCaptcha v = true →
     outcome (handleCaptcha (polls v)) = Ok () ∧ reload_ok v = true) ↔ ok = true →
    (is_Some
       (match
          (if ok then Ok () else Throw WaitTimeout)
          ≫= (λ _, guard (scroll_ok v) EvaluateError
          ≫= (λ _, match content v with Some doc => Ok doc | None => Throw ContentError end
          ≫= (λ doc, guard (negb (length (doc root) =? 0)%nat) ContentNotFound
          ≫= (λ _, match finalTitle JSON_parse doc with
                   | JStr title =>
                     Ok {| pdp_url := url; pdp_title_value := title;
                           price_rp := finalRegularPrice JSON_parse doc;
                           price_sp := salePrice (getPrices doc);
                           delivery_time := getDeliveryTime doc;
                           pdp_desc_value := finalDescription JSON_parse doc;
                           web_pid := productId (getJsonLdData JSON_parse doc);
                           vosa := stock (getJsonLdData JSON_parse doc);
                           pdp_image_url := imageUrl (getJsonLdData JSON_parse doc);
                           pdp_image_count :=
                             if nonempty (imageUrl (getJsonLdData JSON_parse doc))
                             then str "1" else str "0";
                           crawledAt := now v;
                           execution_time := elapsed_ms v # 1000;
                           category := None |}
                   | _ => Throw TypeError
                   end))))
        with Ok product => Some product | Throw _ => None end)
     ↔ true = true ∧ true = true
       ∧ (hasCaptcha v = true →
          outcome (handleCaptcha (polls v)) = Ok () ∧ reload_ok v = true)
       ∧ scroll_ok v = true
       ∧ ∃ doc title, content v = Some doc ∧ doc root ≠ []
                      ∧ finalTitle JSON_parse doc = JStr title)) as Htail.
  { intros ok Hok. destruct ok; simpl;
      [|split; [by intros ?%Hopt|intros (_ & _ & H%Hok & _); discriminate H]].
    destruct (scroll_ok v); simpl;
      [|split; [by intros ?%Hopt|by intros (_ & _ & _ & ? & _)]].
    destruct (content v) as [doc|]; simpl;
      [|split; [by intros ?%Hopt|by intros (_ & _ & _ & _ & ? & ? & ? & _)]].
    destruct (doc root) as [|e els] eqn:Hroot; simpl.
    { split; [by intros ?%Hopt|].
      intros (_ & _ & _ & _ & d & t & [= <-] & Hne & _). by rewrite Hroot in Hne. }
    destruct (finalTitle JSON_parse doc) as [|b|k|title|l|fs|y] eqn:Ht; simpl;
      try (split; [by intros ?%Hopt|];
           intros (_ & _ & _ & _ & d & t & [= <-] & _ & Hd); congruence).
    split; [|intros _; by eexists]. intros _.
    split_and!; try done; [by apply Hok|]. exists doc, title. by rewrite Hroot. }
  destruct (hasCaptcha v); simpl.
  - destruct (outcome (handleCaptcha (polls v))) as [[]|e]; simpl.
    + apply (Htail (reload_ok v)). split; [by intros [_ ?]|by intros ?].
    + split; [by intros ?%Hopt|]. intros (_ & _ & H & _). by destruct H.
  - apply (Htail true). split; [done|by intros].
Qed.

(** X18: when the page gives no title and the name of the JSON-LD block is
    not a string (a number, say), the target is recorded as failed: the
    log line at line 445 calls [substring] on the name and throws. *)
Theorem non_string_name_fails (JSON_parse : jsstring → option json)
    (web : Web) (n : nat) (url : jsstring) (doc : CheerioAPI) (v : json) :
  content (web n url) = Some doc →
  List.find acceptable (title_candidates doc) = None →
  supplied_name (ld_block JSON_parse doc) = Some v →
  (∀ s, v ≠ JStr s) →
  crawlProduct JSON_parse web n url = None.
Proof.
  intros Hdoc Hfind Hname Hv.
  destruct (crawlProduct JSON_parse web n url) as [p|] eqn:Hp; [|done].
  apply crawlProduct_Some in Hp as (d & Hd & He).
  rewrite Hdoc in Hd. injection Hd as <-.
  apply extract_Ok in He as (_ & _ & Ht & _).
  rewrite finalTitle_value, Hfind, Hname in Ht. simpl in Ht.
  by destruct (Hv (pdp_title_value p)).
Qed.

Lemma non_string_name_fails_witness :
  crawlProduct (parse_as numeric_name_block)
    (always (smooth_visit (product_page (str "Short") [] []))) 0 sample_url = None.
Proof.
  apply (non_string_name_fails (parse_as numeric_name_block)
           (always (smooth_visit (product_page (str "Short") [] []))) 0 sample_url
           (product_page (str "Short") [] []) (JNum 2024)); try reflexivity.
  intros s. discriminate.
Defined.

(** ** The session *)

Section Order.

Variable JSON_parse : jsstring → option json.
Variable web : Web.

Lemma crawlAll_order (cat : option jsstring) (urls : list jsstring) (c : Crawler) :
  ∃ ok bad,
    results (crawlAll JSON_parse web cat urls c) = results c ++ ok
    ∧ failedUrls (crawlAll JSON_parse web cat urls c) = failedUrls c ++ bad
    ∧ (pdp_url <$> ok) `sublist_of` urls
    ∧ bad `sublist_of` urls
    ∧ (pdp_url <$> ok) ++ bad ≡ₚ urls
    ∧ Forall (λ p, category p = cat) ok.
Proof.
  revert c. induction urls as [|url urls IH]; intros c.
  - exists [], []. simpl. rewrite !app_nil_r. by split_and!.
  - rewrite crawlAll_cons.
    destruct (IH (crawlOne JSON_parse web cat c url))
      as (ok & bad & Hr & Hf & Hso & Hsb & Hperm & Hcat).
    unfold crawlOne in *.
    destruct (crawlProduct JSON_parse web (visits c) url) as [p|] eqn:Hp; simpl in *.
    + apply crawlProduct_Some in Hp as (doc & _ & He).
      apply extract_Ok in He as (_ & Hurl & _ & _ & _ & _ & _ & _ & Hnone).
      set (q := match cat with Some nm => set_category nm p | None => p end) in *.
      assert (pdp_url q = url ∧ category q = cat) as [Hq1 Hq2].
      { subst q. destruct cat; simpl; by split. }
      exists (q :: ok), bad. rewrite Hr, Hf, <- app_assoc. simpl.
      split_and!; try done.
      * rewrite Hq1. by apply sublist_skip.
      * by apply sublist_cons.
      * rewrite Hq1. by constructor.
      * by constructor.
    + exists ok, (url :: bad). rewrite Hr, Hf, <- app_assoc. simpl.
      split_and!; try done.
      * by apply sublist_cons.
      * by apply sublist_skip.
      * rewrite <- Permutation_middle. by constructor.
Qed.

End Order.

(** X19: the batch keeps the input order: the URLs of the products added
    by a loop and the URLs it adds to the failure list are each a
    subsequence of the target list, and together they are the target list
    up to order, every target counted once. *)
Theorem batch_keeps_input_order (JSON_parse : jsstring → option json) (web : Web)
    (cat : option jsstring) (urls : list jsstring) (c : Crawler) :
  ∃ ok bad,
    results (crawlAll JSON_parse web cat urls c) = results c ++ ok
    ∧ failedUrls (crawlAll JSON_parse web cat urls c) = failedUrls c ++ bad
    ∧ (pdp_url <$> ok) `sublist_of` urls
    ∧ bad `sublist_of` urls
    ∧ (pdp_url <$> ok) ++ bad ≡ₚ urls.
Proof.
  destruct (crawlAll_order JSON_parse web cat urls c)
    as (ok & bad & H1 & H2 & H3 & H4 & H5 & _).
  by exists ok, bad.
Qed.

(** X20: every product that the crawl of a category adds to the results
    carries the name of that category, and the discovery of the links
    adds nothing by itself. *)
Theorem category_products_are_tagged (JSON_parse : jsstring → option json) (web : Web)
    (c : Crawler) (cat : Category) :
  ∃ ok, results (crawlCategory JSON_parse web c cat) = results c ++ ok
        ∧ Forall (λ p, category p = Some (cat_name cat)) ok
        ∧ (length ok ≤ length (discovered web cat c))%nat.
Proof.
  unfold crawlCategory.
  destruct (Nat.eqb_spec (length (discovered web cat c)) 0) as [H0|_].
  - exists []. simpl. rewrite app_nil_r. split_and!; [done..|lia].
  - destruct (crawlAll_order JSON_parse web (Some (cat_name cat)) (discovered web cat c)
                {| results := results c; failedUrls := failedUrls c; visits := S (visits c) |})
      as (ok & bad & H1 & _ & H3 & _ & _ & H6).
    exists ok. split_and!; [done..|].
    apply sublist_length in H3. by rewrite length_fmap in H3.
Qed.

Lemma session_written_inv (d : Driver) (loop : Crawler → Crawler) (c : Crawler) (o : Output) :
  written (session d loop c) = Some o → o = output d (loop c) ∧ page_ready d = true.
Proof.
  unfold session, page_ready.
  destruct (newPage_ok d && setViewport_ok d && setHeaders_ok d); [|done].
  destruct (pageClose_ok d); [|done]. destruct (mkdir_ok d); [|done].
  simpl. by intros [= <-].
Qed.

(** X21: in the document that a URL-mode session writes, the three
    counters agree with the two lists (products and successful URLs are
    the number of products, failed URLs the number of failures), the
    lists are the batch at the end of the run, and for a fresh crawler
    the counters of products and of failures add up to the number of
    targets. *)
Theorem written_counters_add_up (JSON_parse : jsstring → option json) (d : Driver)
    (web : Web) (urls : list jsstring) (run : Run) (o : Output) :
  crawlByUrls JSON_parse d web urls new_crawler = Ok run →
  written run = Some o →
  totalProducts o = length (products o)
  ∧ successfulUrls o = length (products o)
  ∧ out_failedUrls o = length (failed o)
  ∧ products o = results (final run)
  ∧ failed o = failedUrls (final run)
  ∧ (totalProducts o + out_failedUrls o = length urls)%nat.
Proof.
  intros ->%launched_Ok Hw.
  pose proof Hw as [-> Hready]%session_written_inv.
  rewrite session_final by done. simpl. split_and!; try done.
  pose proof (crawlAll_size JSON_parse web None urls new_crawler) as Hsize.
  unfold batch_size in Hsize. simpl in Hsize. lia.
Qed.

Lemma written_counters_add_up_witness :
  ∃ run o, crawlByUrls (parse_as foo_block) good_driver second_fails
             [str "u1"; str "u2"; str "u3"] new_crawler = Ok run
           ∧ written run = Some o
           ∧ totalProducts o = 2%nat ∧ out_failedUrls o = 1%nat.
Proof.
  eexists _, _. split; [reflexivity|]. split; [reflexivity|].
  pose proof (written_counters_add_up (parse_as foo_block) good_driver second_fails
                [str "u1"; str "u2"; str "u3"] _ _ eq_refl eq_refl) as (_ & _ & H3 & _).
  split; [vm_compute; reflexivity|]. rewrite H3. vm_compute. reflexivity.
Defined.

(** ** The output file and [main] *)

Lemma dashed_spec (timestamp : jsstring) :
  length (dashed timestamp) = length timestamp
  ∧ (58%N ∉ dashed timestamp)
  ∧ dots (dashed timestamp) = 0%nat.
Proof.
  unfold dashed, dots. induction timestamp as [|c t (IH1 & IH2 & IH3)]; simpl.
  - split_and!; [done|apply not_elem_of_nil|done].
  - split_and!; [by rewrite IH1| |].
    + apply not_elem_of_cons. split; [|done].
      destruct (N.eqb_spec c 58) as [->|?]; simpl; [done|].
      destruct (N.eqb_spec c 46); [done|congruence].
    + destruct (N.eqb_spec c 58) as [->|?]; simpl; [done|].
      destruct (N.eqb_spec c 46) as [->|?]; simpl; [done|].
      by destruct (N.eqb_spec c 46).
Qed.

(** X22: the name of the output file has no colon and exactly one dot,
    the one of its extension, whatever the timestamp; its length is that
    of the timestamp plus the 26 characters of the directory, the prefix
    and the extension. *)
Theorem filename_is_portable (timestamp : jsstring) :
  (58%N ∉ filename timestamp)
  ∧ dots (filename timestamp) = 1%nat
  ∧ length (filename timestamp) = (length timestamp + 26)%nat.
Proof.
  destruct (dashed_spec timestamp) as (Hlen & Hcolon & Hdots).
  unfold filename, dots in *. split_and!.
  - rewrite !elem_of_app. intros [H|[H|H]]; [|done|].
    + vm_compute in H. repeat (apply elem_of_cons in H as [H|H]; [discriminate H|]).
      by apply elem_of_nil in H.
    + vm_compute in H. repeat (apply elem_of_cons in H as [H|H]; [discriminate H|]).
      by apply elem_of_nil in H.
  - rewrite !List.filter_app, !length_app, Hdots. reflexivity.
  - rewrite !length_app, Hlen. vm_compute (length (str _)). vm_compute (length (str ".json")). lia.
Qed.

Lemma session_rejected (d : Driver) (loop : Crawler → Crawler) (c : Crawler) :
  rejected (session d loop c) = negb (browserClose_ok d).
Proof.
  unfold session.
  by destruct (newPage_ok d && setViewport_ok d && setHeaders_ok d),
              (pageClose_ok d), (mkdir_ok d).
Qed.

Lemma settle_status (d : Driver) (r : Run) :
  rejected r = negb (browserClose_ok d) →
  Main.status (Main.settle (launched d r)) = 0
  ↔ launch_ok d = true ∧ browserClose_ok d = true.
Proof.
  intros Hr. unfold launched, Main.settle.
  destruct (launch_ok d); simpl; [|split; [done|by intros [? _]]].
  rewrite Hr. destruct (browserClose_ok d); simpl; split; try done; by intros [_ ?].
Qed.

(** X23: the process exits with status 0 exactly when the configuration
    of the selected mode lists at least one target, the browser launches
    and it closes; nothing else counts: not the failure of every target,
    and not a fatal error of the session, which is only logged. Without
    configured targets no session is started. *)
Theorem exit_status_zero_iff (JSON_parse : jsstring → option json) (d : Driver) (web : Web)
    (arg : option jsstring) (cfg : Main.Config) :
  (Main.status (Main.main JSON_parse d web arg cfg) = 0
   ↔ configured arg cfg = true ∧ launch_ok d = true ∧ browserClose_ok d = true)
  ∧ (configured arg cfg = false →
     Main.main JSON_parse d web arg cfg = {| Main.status := 1; Main.ran := None |}).
Proof.
  unfold Main.main, configured.
  destruct (Main.mode_of arg).
  - destruct (Main.LAZADA_URLS cfg) as [[|u us]|]; simpl;
      try (split; [split; [done|by intros [? _]]|done]).
    split; [|done]. unfold crawlByUrls. rewrite settle_status by apply session_rejected.
    tauto.
  - destruct (Main.LAZADA_CATEGORIES cfg) as [[|u us]|]; simpl;
      try (split; [split; [done|by intros [? _]]|done]).
    split; [|done]. unfold crawlByCategories. rewrite settle_status by apply session_rejected.
    tauto.
Qed.

Lemma exit_status_zero_iff_witness :
  Main.status (Main.main (parse_as foo_block) no_page_driver (always dead_visit)
                 None sample_config) = 0
  ∧ Main.main (parse_as foo_block) good_driver (always dead_visit)
      (Some (str "category")) sample_config = {| Main.status := 1; Main.ran := None |}.
Proof.
  split.
  - apply (proj1 (exit_status_zero_iff (parse_as foo_block) no_page_driver (always dead_visit)
                    None sample_config)).
    split_and!; reflexivity.
  - apply (proj2 (exit_status_zero_iff (parse_as foo_block) good_driver (always dead_visit)
                    (Some (str "category")) sample_config)).
    reflexivity.
Defined.

(** The category mode is selected by the first argument "categories"
    or "category" and by nothing else; a missing or empty argument, and
    any other word, select the URL mode. *)
Theorem mode_selection (arg : option jsstring) :
  Main.mode_of arg = Main.CategoryMode
  ↔ arg = Some (str "categories") ∨ arg = Some (str "category").
Proof.
  unfold Main.mode_of. split.
  - destruct arg as [[|c a]|]; simpl nonempty; cbv iota.
    + vm_compute. discriminate.
    + destruct (bool_decide_reflect (c :: a = str "categories")) as [->|_]; [by left|].
      destruct (bool_decide_reflect (c :: a = str "category")) as [->|_]; [by right|].
      discriminate.
    + vm_compute. discriminate.
  - intros [->| ->]; vm_compute; reflexivity.
Qed.

Lemma discovered_length (web : Web) (category : Category) (c : Crawler) :
  0 ≤ cap_of category →
  Z.of_nat (length (discovered web category c)) ≤ cap_of category.
Proof.
  intros Hcap. unfold discovered.
  destruct (getProductLinks_cases web (visits c) (cat_url category) (cap_of category))
    as [->|(doc & _ & ->)]; [simpl; lia|].
  unfold Links.productLinks. rewrite slice0_length by done. lia.
Qed.

(** X24: a category whose [maxProducts] is 0 or not given is crawled
    exactly as with a [maxProducts] of 50, so that a cap of 0 does not
    switch the category off: the links are those that link discovery
    returns for 50; and a category adds at most its [maxProducts] entries
    to the batch when that is positive, at most 50 when it is 0 or not
    given. *)
Theorem category_adds_at_most_cap (JSON_parse : jsstring → option json) (web : Web)
    (c : Crawler) (category : Category) :
  discovered web category c
  = getProductLinks web (visits c) (cat_url category)
      match maxProducts category with
      | Some 0 | None => 50
      | Some n => n
      end
  ∧ (maxProducts category = Some 0 ∨ maxProducts category = None →
     crawlCategory JSON_parse web c category
     = crawlCategory JSON_parse web c
         {| cat_name := cat_name category; cat_url := cat_url category;
            maxProducts := Some 50 |})
  ∧ ((∀ n, maxProducts category = Some n → 0 ≤ n) →
     Z.of_nat (batch_size (crawlCategory JSON_parse web c category))
     ≤ Z.of_nat (batch_size c)
       + match maxProducts category with
         | Some 0 | None => 50
         | Some n => n
         end).
Proof.
  assert (cap_of category = match maxProducts category with
                            | Some 0 | None => 50
                            | Some n => n
                            end) as Hcap.
  { unfold cap_of. by destruct (maxProducts category) as [[|n|n]|]. }
  split_and!.
  - unfold discovered. by rewrite Hcap.
  - intros H. unfold crawlCategory, discovered, cap_of. simpl.
    by destruct H as [-> | ->].
  - intros Hpos. rewrite crawlCategory_size.
    pose proof (discovered_length web category c) as Hlen. rewrite Hcap in Hlen.
    assert (0 ≤ match maxProducts category with Some 0 | None => 50 | Some n => n end) as H0.
    { destruct (maxProducts category) as [[|n|n]|] eqn:Hm; try lia.
      specialize (Hpos _ eq_refl). lia. }
    specialize (Hlen H0). lia.
Qed.

(** With a [maxProducts] of 0 the three products of the listing are
    crawled. *)
Lemma category_adds_at_most_cap_witness :
  batch_size (crawlCategory (parse_as foo_block) listing_then_products new_crawler
                {| cat_name := str "all"; cat_url := str "https://www.lazada.vn/catalog/";
                   maxProducts := Some 0 |}) = 3%nat
  ∧ Z.of_nat (batch_size (crawlCategory (parse_as foo_block) listing_then_products new_crawler
                            {| cat_name := str "all";
                               cat_url := str "https://www.lazada.vn/catalog/";
                               maxProducts := Some 0 |}))
    ≤ 50.
Proof.
  destruct (category_adds_at_most_cap (parse_as foo_block) listing_then_products new_crawler
              {| cat_name := str "all"; cat_url := str "https://www.lazada.vn/catalog/";
                 maxProducts := Some 0 |}) as (_ & Hsame & Hbound).
  split.
  - rewrite Hsame by (by left). vm_compute. reflexivity.
  - apply Hbound. intros n [= <-]. lia.
Defined.

Lemma handleCaptcha_throws_iff_witness :
  outcome (handleCaptcha (polls stuck_visit)) = Throw CaptchaTimeout.
Proof.
  apply (proj1 (handleCaptcha_throws_iff (polls stuck_visit))).
  apply stuck_visit_stays.
Defined.

Lemma crawlProduct_succeeds_iff_witness :
  is_Some (crawlProduct (parse_as foo_block)
             (always (smooth_visit (product_page [] [] []))) 0 sample_url).
Proof.
  apply (crawlProduct_succeeds_iff (parse_as foo_block)
           (always (smooth_visit (product_page [] [] []))) 0 sample_url).
  split_and!; try reflexivity; [discriminate|].
  exists (product_page [] [] []), (str "Foo Product").
  split_and!; [reflexivity|discriminate|reflexivity].
Defined.
